(** * Solutions view: event handlers, query cache and view selection

    A shallow embedding of the [Solutions] React component
    (screenshot list upkeep, reset, solution / debug events, the view
    selector, the subscription effect) and of [formatComplexity] from the
    [ComplexitySection] component, together with the properties the
    specification states about them. *)

From Stdlib Require Import ZArith NArith Ascii String Lia.
From stdpp Require Import base option list strings gmap.

Local Open Scope N_scope.

(** ** JavaScript strings

    A JavaScript string is a sequence of UTF-16 code units.  String
    literals of the source are ASCII and are written through [lit]. *)

Abbreviation jsstring := (list N).

Definition lit (s : string) : jsstring :=
  N_of_ascii <$> list_ascii_of_string s.

Definition chr (a : ascii) : N := N_of_ascii a.

Arguments lit : simpl never.
Arguments chr : simpl never.

(** [WhiteSpace] and [LineTerminator] code points of ECMAScript, the
    characters [String.prototype.trim] strips. *)
Definition isWhiteSpace (ch : N) : bool :=
  existsb (N.eqb ch)
    [9; 10; 11; 12; 13; 32; 160; 5760; 8232; 8233; 8239; 8287; 12288; 65279]
  || ((8192 <=? ch) && (ch <=? 8202)).

Fixpoint trimStart (s : jsstring) : jsstring :=
  match s with
  | [] => []
  | ch :: s' => if isWhiteSpace ch then trimStart s' else s
  end.

Definition trimEnd (s : jsstring) : jsstring := rev (trimStart (rev s)).

Definition trim (s : jsstring) : jsstring := trimEnd (trimStart s).

Definition jsstring_is_empty (s : jsstring) : bool :=
  match s with [] => true | _ => false end.

(** ** Regular expressions

    The fragment of the pattern language that [/O\([^)]+\)/i] uses: a
    sequence of terms, each an atom or an atom under [+], an atom being a
    literal character or a negated class; and the [i] flag. *)

Module RegExp.

Inductive Atom :=
| Char (c : N)
| NotOneOf (cs : list N).

Inductive Term :=
| Once (a : Atom)
| OneOrMore (a : Atom).

Record t := { source : list Term; ignoreCase : bool }.

(** ECMAScript's [Canonicalize] without the [u] flag maps a character to
    its upper case, except that a character outside ASCII is never mapped
    into ASCII.  The patterns here hold ASCII characters only, so a
    comparison with them is decided by the ASCII part of the mapping,
    which is all that is written out. *)
Definition Canonicalize (ignoreCase : bool) (ch : N) : N :=
  if ignoreCase && (97 <=? ch) && (ch <=? 122) then ch - 32 else ch.

Definition atomMatches (i : bool) (a : Atom) (ch : N) : bool :=
  match a with
  | Char c => Canonicalize i c =? Canonicalize i ch
  | NotOneOf cs =>
      negb (existsb (fun c => Canonicalize i c =? Canonicalize i ch) cs)
  end.

(** One or more characters accepted by [p], then the continuation [k];
    the longer repetition is tried first. *)
Fixpoint oneOrMore (p : N -> bool) (k : jsstring -> bool) (s : jsstring) : bool :=
  match s with
  | [] => false
  | ch :: s' => p ch && (oneOrMore p k s' || k s')
  end.

(** A match of the terms that starts at the head of [s]. *)
Fixpoint matchAt (i : bool) (ts : list Term) (s : jsstring) : bool :=
  match ts with
  | [] => true
  | Once a :: ts' =>
      match s with
      | [] => false
      | ch :: s' => atomMatches i a ch && matchAt i ts' s'
      end
  | OneOrMore a :: ts' => oneOrMore (atomMatches i a) (matchAt i ts') s
  end.

(** The pattern is not anchored: every start position is tried. *)
Fixpoint search (i : bool) (ts : list Term) (s : jsstring) : bool :=
  matchAt i ts s ||
  match s with
  | [] => false
  | _ :: s' => search i ts s'
  end.

(** [RegExp.prototype.test], for a pattern without the [g] and [y] flags. *)
Definition test (r : t) (s : jsstring) : bool :=
  search (ignoreCase r) (source r) s.

End RegExp.

(** ** [formatComplexity] *)

(** [/O\([^)]+\)/i] *)
Definition bigORegex : RegExp.t :=
  {| RegExp.source :=
       [RegExp.Once (RegExp.Char (chr "O"));
        RegExp.Once (RegExp.Char (chr "("));
        RegExp.OneOrMore (RegExp.NotOneOf [chr ")"]);
        RegExp.Once (RegExp.Char (chr ")"))];
     RegExp.ignoreCase := true |}.

(** The argument is [string | null]; [None] is [null]. *)
Definition formatComplexity (complexity : option jsstring) : jsstring :=
  match complexity with
  | None => lit "N/A"
  | Some c =>
      if jsstring_is_empty c || jsstring_is_empty (trim c) then lit "N/A"
      else if RegExp.test bigORegex c then c
      else lit "O(" ++ c ++ lit ")"
  end.

(** The specification's words for the pattern: somewhere in the string an
    [O] of either case, an opening parenthesis, at least one character,
    none of them a closing parenthesis, and a closing parenthesis. *)
Definition containsBigO (s : jsstring) : Prop :=
  ∃ pre o body post,
    s = pre ++ o :: chr "(" :: body ++ chr ")" :: post
    ∧ (o = chr "O" ∨ o = chr "o")
    ∧ body ≠ []
    ∧ chr ")" ∉ body.

Definition blank (s : jsstring) : Prop := Forall (λ ch, isWhiteSpace ch = true) s.

(** ** Data model *)

Record ProblemStatementData := { problem_statement : jsstring }.

Record Solution := {
  code : jsstring;
  thoughts : list jsstring;
  time_complexity : jsstring;
  space_complexity : jsstring
}.

(** An entry of [extraScreenshots]. *)
Record Screenshot := {
  id : jsstring;
  path : jsstring;
  preview : jsstring;
  timestamp : Z
}.

(** What the parent's [setView] accepts. *)
Inductive View := queue | solutions | debug.

(** The third argument of [showToast]. *)
Inductive Variant := toast_error | toast_neutral | toast_success.

(** ** Completions: a value or a thrown exception *)

Inductive Exn :=
| TypeError
| Error (reason : jsstring).

Inductive Completion (A : Type) :=
| Normal (a : A)
| Throw (e : Exn).
Arguments Normal {A} a.
Arguments Throw {A} e.

(** A settled promise. *)
Inductive Settled (A : Type) :=
| Fulfilled (a : A)
| Rejected (reason : Exn).
Arguments Fulfilled {A} a.
Arguments Rejected {A} reason.

(** ** The platform bridge, [window.electronAPI]

    Its declaration is not part of the component; the replies are the
    shapes the component inspects. *)

(** An element of the array [getScreenshots] resolves to; [None] is an
    element that is [null] or [undefined], on which [p.path] throws. *)
Record RawScreenshot := { raw_path : jsstring; raw_preview : jsstring }.

Inductive ScreenshotsReply :=
| NotArray
| IsArray (items : list (option RawScreenshot)).

(** What [deleteScreenshot] resolves to; [NoResponse] is [null] or
    [undefined], on which [response.success] throws. *)
Inductive DeleteReply :=
| NoResponse
| Response (success : bool).

(** The ten named events, and the ten callbacks of the component. *)
Inductive EventName :=
| screenshot_taken | reset_view | solution_start | problem_extracted
| solution_error | solution_success | debug_start | debug_success
| debug_error | processing_no_screenshots.

Inductive Callback :=
| cb_onScreenshotTaken | cb_onResetView | cb_onSolutionStart
| cb_onProblemExtracted | cb_onSolutionError | cb_onSolutionSuccess
| cb_onDebugStart | cb_onDebugSuccess | cb_onDebugError
| cb_onProcessingNoScreenshots.

#[global] Instance EventName_eq_dec : EqDecision EventName.
Proof. solve_decision. Defined.

#[global] Instance Callback_eq_dec : EqDecision Callback.
Proof. solve_decision. Defined.

Record Listener := {
  listener_id : nat;
  listener_event : EventName;
  listener_callback : Callback
}.

(** ** The query cache

    Library model (QueryClient of @tanstack/react-query, which the
    component imports).  A query key is an array; the component uses
    one-element arrays of string literals.  The cache is shared by the
    whole application, so it may hold other keys as well. *)

Inductive QueryData :=
| ProblemData (d : ProblemStatementData)
| SolutionData (d : Solution).

Record Query := { state_data : QueryData; isInvalidated : bool }.

Module QueryClient.

(** [getQueryData(key)]: the data of the query with exactly this key,
    [None] (undefined) when there is none. *)
Definition getQueryData (key : list string) (c : gmap (list string) Query)
  : option QueryData :=
  state_data <$> c !! key.

(** [setQueryData(key, value)].  The library documents: if the value
    is [undefined], the query data is not updated; so a [None] leaves
    the cache as it is.  Any other value replaces the entry as a whole,
    and the entry is no longer invalidated. *)
Definition setQueryData (key : list string) (value : option QueryData)
    (c : gmap (list string) Query) : gmap (list string) Query :=
  match value with
  | None => c
  | Some d => <[key := {| state_data := d; isInvalidated := false |}]> c
  end.

(** The [queryKey] filter matches every key that starts with it. *)
Definition matchesKey (key k : list string) : bool :=
  bool_decide (key `prefix_of` k).

(** [removeQueries({ queryKey })] *)
Definition removeQueries (key : list string) (c : gmap (list string) Query)
  : gmap (list string) Query :=
  filter (λ kq, matchesKey key kq.1 = false) c.

(** [invalidateQueries({ queryKey })]: the matching queries are marked,
    their data stays.  The queries of this component are disabled, so
    nothing is fetched again. *)
Definition invalidateQueries (key : list string) (c : gmap (list string) Query)
  : gmap (list string) Query :=
  map_imap (λ k q,
    Some (if matchesKey key k
          then {| state_data := state_data q; isInvalidated := true |}
          else q)) c.

End QueryClient.

Arguments QueryClient.getQueryData : simpl never.
Arguments QueryClient.setQueryData : simpl never.
Arguments QueryClient.removeQueries : simpl never.
Arguments QueryClient.invalidateQueries : simpl never.

(** ** Component state and what it does to the outside *)

(** The one callback the component hands to [setTimeout]:
    [() => setIsResetting(false)]. *)
Inductive TimerCallback := ClearIsResetting.

Inductive LogArg :=
| LogExn (e : Exn)
| LogStr (s : jsstring).

Inductive Output :=
| ShowToast (title message : jsstring) (variant : Variant)
| ConsoleError (label : jsstring) (arg : LogArg)
| ConsoleWarn (label : jsstring)
| SetView (v : View)
| SetQueryData (key : list string) (value : option QueryData)
| RemoveQueries (key : list string)
| InvalidateQueries (key : list string)
| SetTimeout (cb : TimerCallback) (delay : Z)
| GetScreenshots
| DeleteScreenshot (p : jsstring)
| On (ev : EventName) (cb : Callback)
| Unregister (listener : nat).

Record Timer := { timer_callback : TimerCallback; timer_delay : Z }.

Record State := {
  debugProcessing : bool;
  isResetting : bool;
  extraScreenshots : list Screenshot;
  queryClient : gmap (list string) Query;
  (** the parent's view, written through the [setView] prop *)
  view : View;
  (** tasks handed to [setTimeout] that have not run yet, oldest first *)
  timers : list Timer;
  (** calls of [getScreenshots] / [deleteScreenshot] whose promise has not
      settled yet: each has a suspended continuation of the component *)
  awaitingScreenshots : nat;
  awaitingDelete : nat;
  (** handlers the bridge holds, and the next listener identity *)
  listeners : list Listener;
  nextListener : nat;
  (** everything done to collaborators, oldest first *)
  trace : list Output
}.

Definition set_debugProcessing (b : bool) (s : State) : State :=
  {| debugProcessing := b; isResetting := isResetting s;
     extraScreenshots := extraScreenshots s; queryClient := queryClient s;
     view := view s; timers := timers s;
     awaitingScreenshots := awaitingScreenshots s;
     awaitingDelete := awaitingDelete s; listeners := listeners s;
     nextListener := nextListener s; trace := trace s |}.

Definition set_isResetting (b : bool) (s : State) : State :=
  {| debugProcessing := debugProcessing s; isResetting := b;
     extraScreenshots := extraScreenshots s; queryClient := queryClient s;
     view := view s; timers := timers s;
     awaitingScreenshots := awaitingScreenshots s;
     awaitingDelete := awaitingDelete s; listeners := listeners s;
     nextListener := nextListener s; trace := trace s |}.

Definition set_extraScreenshots (l : list Screenshot) (s : State) : State :=
  {| debugProcessing := debugProcessing s; isResetting := isResetting s;
     extraScreenshots := l; queryClient := queryClient s;
     view := view s; timers := timers s;
     awaitingScreenshots := awaitingScreenshots s;
     awaitingDelete := awaitingDelete s; listeners := listeners s;
     nextListener := nextListener s; trace := trace s |}.

Definition set_queryClient (c : gmap (list string) Query) (s : State) : State :=
  {| debugProcessing := debugProcessing s; isResetting := isResetting s;
     extraScreenshots := extraScreenshots s; queryClient := c;
     view := view s; timers := timers s;
     awaitingScreenshots := awaitingScreenshots s;
     awaitingDelete := awaitingDelete s; listeners := listeners s;
     nextListener := nextListener s; trace := trace s |}.

Definition set_view (v : View) (s : State) : State :=
  {| debugProcessing := debugProcessing s; isResetting := isResetting s;
     extraScreenshots := extraScreenshots s; queryClient := queryClient s;
     view := v; timers := timers s;
     awaitingScreenshots := awaitingScreenshots s;
     awaitingDelete := awaitingDelete s; listeners := listeners s;
     nextListener := nextListener s; trace := trace s |}.

Definition set_timers (ts : list Timer) (s : State) : State :=
  {| debugProcessing := debugProcessing s; isResetting := isResetting s;
     extraScreenshots := extraScreenshots s; queryClient := queryClient s;
     view := view s; timers := ts;
     awaitingScreenshots := awaitingScreenshots s;
     awaitingDelete := awaitingDelete s; listeners := listeners s;
     nextListener := nextListener s; trace := trace s |}.

Definition set_awaitingScreenshots (n : nat) (s : State) : State :=
  {| debugProcessing := debugProcessing s; isResetting := isResetting s;
     extraScreenshots := extraScreenshots s; queryClient := queryClient s;
     view := view s; timers := timers s;
     awaitingScreenshots := n;
     awaitingDelete := awaitingDelete s; listeners := listeners s;
     nextListener := nextListener s; trace := trace s |}.

Definition set_awaitingDelete (n : nat) (s : State) : State :=
  {| debugProcessing := debugProcessing s; isResetting := isResetting s;
     extraScreenshots := extraScreenshots s; queryClient := queryClient s;
     view := view s; timers := timers s;
     awaitingScreenshots := awaitingScreenshots s;
     awaitingDelete := n; listeners := listeners s;
     nextListener := nextListener s; trace := trace s |}.

Definition set_listeners (ls : list Listener) (next : nat) (s : State) : State :=
  {| debugProcessing := debugProcessing s; isResetting := isResetting s;
     extraScreenshots := extraScreenshots s; queryClient := queryClient s;
     view := view s; timers := timers s;
     awaitingScreenshots := awaitingScreenshots s;
     awaitingDelete := awaitingDelete s; listeners := ls;
     nextListener := next; trace := trace s |}.

Definition emit (o : Output) (s : State) : State :=
  {| debugProcessing := debugProcessing s; isResetting := isResetting s;
     extraScreenshots := extraScreenshots s; queryClient := queryClient s;
     view := view s; timers := timers s;
     awaitingScreenshots := awaitingScreenshots s;
     awaitingDelete := awaitingDelete s; listeners := listeners s;
     nextListener := nextListener s; trace := trace s ++ [o] |}.

(** ** The monad of handler bodies: state, and exceptions that keep the
    state reached when they were thrown *)

Definition M (A : Type) : Type := State → Completion A * State.

#[global] Instance M_ret : MRet M := λ A a s, (Normal a, s).

#[global] Instance M_bind : MBind M := λ A B f m s,
  match m s with
  | (Normal a, s') => f a s'
  | (Throw e, s') => (Throw e, s')
  end.

Definition throw {A} (e : Exn) : M A := λ s, (Throw e, s).

(** [try { body } catch (error) { handler(error) }] *)
Definition try_catch {A} (body : M A) (handler : Exn → M A) : M A := λ s,
  match body s with
  | (Normal a, s') => (Normal a, s')
  | (Throw e, s') => handler e s'
  end.

Definition liftC {A} (c : Completion A) : M A := λ s, (c, s).

Definition modify (f : State → State) : M unit := λ s, (Normal tt, f s).

Definition gets {A} (f : State → A) : M A := λ s, (Normal (f s), s).

(** The state a body leaves, and whether an exception escaped it. *)
Definition exec {A} (m : M A) (s : State) : State := (m s).2.

Definition escapes {A} (m : M A) (s : State) : option Exn :=
  match (m s).1 with Normal _ => None | Throw e => Some e end.

(** [await p] once [p] has settled. *)
Definition await {A} (p : Settled A) : M A :=
  match p with
  | Fulfilled a => mret a
  | Rejected e => throw e
  end.

(** *** Collaborators *)

Definition setDebugProcessing (b : bool) : M unit := modify (set_debugProcessing b).
Definition setIsResetting (b : bool) : M unit := modify (set_isResetting b).
Definition setExtraScreenshots (l : list Screenshot) : M unit :=
  modify (set_extraScreenshots l).

Definition queryClient_getQueryData (key : list string) : M (option QueryData) :=
  gets (λ s, QueryClient.getQueryData key (queryClient s)).
Definition queryClient_setQueryData (key : list string) (v : option QueryData) : M unit :=
  modify (λ s, emit (SetQueryData key v)
                 (set_queryClient (QueryClient.setQueryData key v (queryClient s)) s)).
Definition queryClient_removeQueries (key : list string) : M unit :=
  modify (λ s, emit (RemoveQueries key)
                 (set_queryClient (QueryClient.removeQueries key (queryClient s)) s)).
Definition queryClient_invalidateQueries (key : list string) : M unit :=
  modify (λ s, emit (InvalidateQueries key)
                 (set_queryClient (QueryClient.invalidateQueries key (queryClient s)) s)).

Definition showToast (title message : string) (variant : Variant) : M unit :=
  modify (emit (ShowToast (lit title) (lit message) variant)).
Definition showToast_msg (title : string) (message : jsstring) (variant : Variant) : M unit :=
  modify (emit (ShowToast (lit title) message variant)).
Definition console_error (label : string) (arg : LogArg) : M unit :=
  modify (emit (ConsoleError (lit label) arg)).
Definition console_warn (label : string) : M unit :=
  modify (emit (ConsoleWarn (lit label))).

(** The parent's [setView]. *)
Definition setView (v : View) : M unit :=
  modify (λ s, emit (SetView v) (set_view v s)).

(** [setTimeout(callback, delay)]: the task is queued behind the ones
    already waiting and runs in a later task of the event loop. *)
Definition setTimeout (cb : TimerCallback) (delay : Z) : M unit :=
  modify (λ s, emit (SetTimeout cb delay)
                 (set_timers (timers s ++ [{| timer_callback := cb; timer_delay := delay |}]) s)).

(** [window.electronAPI.getScreenshots()]: the request goes out, the
    promise settles in a later task. *)
Definition electronAPI_getScreenshots : M unit :=
  modify (λ s, emit GetScreenshots (set_awaitingScreenshots (S (awaitingScreenshots s)) s)).

Definition electronAPI_deleteScreenshot (p : jsstring) : M unit :=
  modify (λ s, emit (DeleteScreenshot p) (set_awaitingDelete (S (awaitingDelete s)) s)).

(** Modelled from the spec: the subscription functions
    [window.electronAPI.on<Event>(handler)] of the platform bridge, which
    is not part of the component.  Each binds the handler to its named
    event and returns an unregister function; [returnsUnregister] tells
    for which events the bridge really returns one ([undefined]
    otherwise).  An unregister function is known by the listener it
    removes. *)
Definition electronAPI_on (returnsUnregister : EventName → bool)
    (ev : EventName) (cb : Callback) : M (option nat) := λ s,
  let n := nextListener s in
  let l := {| listener_id := n; listener_event := ev; listener_callback := cb |} in
  (Normal (if returnsUnregister ev then Some n else None),
   emit (On ev cb) (set_listeners (listeners s ++ [l]) (S n) s)).

(** Calling an unregister function. *)
Definition call_unregister (n : nat) : M unit :=
  modify (λ s,
    emit (Unregister n)
      (set_listeners (filter (λ l, listener_id l ≠ n) (listeners s)) (nextListener s) s)).

(** Calling a value that may be [undefined]: that is a [TypeError]. *)
Definition call_value (f : option nat) : M unit :=
  match f with
  | None => throw TypeError
  | Some n => call_unregister n
  end.

(** ** JavaScript values and arrays *)

(** [undefined] is falsy, an object is truthy. *)
Definition truthy {A} (o : option A) : bool :=
  match o with Some _ => true | None => false end.

(** A string is truthy unless it is empty. *)
Definition truthy_string (s : jsstring) : bool := negb (jsstring_is_empty s).

(** [l[index]]: [undefined] outside the array. *)
Definition array_get {A} (l : list A) (index : Z) : option A :=
  if (index <? 0)%Z then None else l !! Z.to_nat index.

(** [l.slice(start)] *)
Definition slice {A} (start : Z) (l : list A) : list A :=
  let len := Z.of_nat (length l) in
  let k := if (start <? 0)%Z then Z.max (len + start) 0 else Z.min start len in
  drop (Z.to_nat k) l.

(** [l.map(f)] from index [i] on, for a callback that may throw. *)
Fixpoint array_map {A B} (f : nat → A → Completion B) (i : nat) (l : list A)
  : Completion (list B) :=
  match l with
  | [] => Normal []
  | x :: l' =>
      match f i x with
      | Throw e => Throw e
      | Normal y =>
          match array_map f (S i) l' with
          | Throw e => Throw e
          | Normal ys => Normal (y :: ys)
          end
      end
  end.

(** [l.forEach(f)] *)
Fixpoint forEach {A} (f : A → M unit) (l : list A) : M unit :=
  match l with
  | [] => mret tt
  | x :: l' => f x;; forEach f l'
  end.

(** [screenshotToDelete.path] *)
Definition get_path (o : option Screenshot) : Completion jsstring :=
  match o with
  | None => Throw TypeError
  | Some sh => Normal (path sh)
  end.

(** [response.success] *)
Definition get_success (r : DeleteReply) : Completion bool :=
  match r with
  | NoResponse => Throw TypeError
  | Response b => Normal b
  end.

(** ** The component [Solutions] *)

Definition MAX_SCREENSHOTS : Z := 100.

(** The callback of [.map] in [onScreenshotTaken]; [now i] is what
    [Date.now()] reads when the callback runs on element [i].
    [screenshotOf] is the object it builds from an element that has
    properties. *)
Definition screenshotOf (now : nat → Z) (i : nat) (r : RawScreenshot) : Screenshot :=
  {| id := raw_path r; path := raw_path r; preview := raw_preview r;
     timestamp := now i |}.

Definition toScreenshot (now : nat → Z) (i : nat) (p : option RawScreenshot)
  : Completion Screenshot :=
  match p with
  | None => Throw TypeError
  | Some r => Normal (screenshotOf now i r)
  end.

Definition arrayOrEmpty (existing : ScreenshotsReply) : list (option RawScreenshot) :=
  match existing with
  | IsArray items => items
  | NotArray => []
  end.

(** [onScreenshotTaken] is an async function: it runs up to the [await]
    when it is called, and the rest when the promise has settled.  Both
    parts are inside the one [try] of the source. *)
Definition onScreenshotTaken : M unit :=
  try_catch electronAPI_getScreenshots
    (λ error, console_error "Error loading extra screenshots:" (LogExn error)).

Definition onScreenshotTaken_resume (p : Settled ScreenshotsReply) (now : nat → Z)
  : M unit :=
  try_catch
    (existing ← await p;
     screenshots ← liftC (array_map (toScreenshot now) 0 (arrayOrEmpty existing));
     setExtraScreenshots (slice (- MAX_SCREENSHOTS) screenshots))
    (λ error, console_error "Error loading extra screenshots:" (LogExn error)).

Definition onResetView : M unit :=
  setIsResetting true;;
  queryClient_removeQueries ["solution"%string];;
  queryClient_removeQueries ["new_solution"%string];;
  setExtraScreenshots [];;
  setTimeout ClearIsResetting 0.

Definition onSolutionStart : M unit :=
  queryClient_invalidateQueries ["solution"%string].

Definition onProblemExtracted (data : option ProblemStatementData) : M unit :=
  queryClient_setQueryData ["problem_statement"%string] (ProblemData <$> data).

Definition onSolutionError (error : jsstring) : M unit :=
  showToast_msg "Processing Failed" error toast_error;;
  currentSolution ← queryClient_getQueryData ["solution"%string];
  (if negb (truthy currentSolution) then setView queue else mret tt);;
  console_error "Processing error:" (LogStr error).

(** The payload is [None] when the event carries [undefined]. *)
Definition onSolutionSuccess (data : option Solution) : M unit :=
  if negb (truthy data) then
    console_warn "Received empty or invalid solution data"
  else
    queryClient_setQueryData ["solution"%string] (SolutionData <$> data);;
    onScreenshotTaken.

Definition onDebugStart : M unit := setDebugProcessing true.

Definition onDebugSuccess (data : option Solution) : M unit :=
  queryClient_setQueryData ["new_solution"%string] (SolutionData <$> data);;
  setDebugProcessing false.

Definition onDebugError : M unit :=
  showToast "Processing Failed" "There was an error debugging your code." toast_error;;
  setDebugProcessing false.

Definition onProcessingNoScreenshots : M unit :=
  showToast "No Screenshots" "There are no extra screenshots to process." toast_neutral.

(** The effect: what runs at activation.  It returns the array
    [unregisterFunctions] that the cleanup closes over. *)
Definition useEffect_setup (returnsUnregister : EventName → bool)
  : M (list (option nat)) :=
  onScreenshotTaken;;
  u0 ← electronAPI_on returnsUnregister screenshot_taken cb_onScreenshotTaken;
  u1 ← electronAPI_on returnsUnregister reset_view cb_onResetView;
  u2 ← electronAPI_on returnsUnregister solution_start cb_onSolutionStart;
  u3 ← electronAPI_on returnsUnregister problem_extracted cb_onProblemExtracted;
  u4 ← electronAPI_on returnsUnregister solution_error cb_onSolutionError;
  u5 ← electronAPI_on returnsUnregister solution_success cb_onSolutionSuccess;
  u6 ← electronAPI_on returnsUnregister debug_start cb_onDebugStart;
  u7 ← electronAPI_on returnsUnregister debug_success cb_onDebugSuccess;
  u8 ← electronAPI_on returnsUnregister debug_error cb_onDebugError;
  u9 ← electronAPI_on returnsUnregister processing_no_screenshots
         cb_onProcessingNoScreenshots;
  mret [u0; u1; u2; u3; u4; u5; u6; u7; u8; u9].

(** The ten named events, and the handler bound to each, in the order of
    the array in the effect. *)
Definition namedEvents : list EventName :=
  [screenshot_taken; reset_view; solution_start; problem_extracted;
   solution_error; solution_success; debug_start; debug_success;
   debug_error; processing_no_screenshots].

Definition registrations : list (EventName * Callback) :=
  [(screenshot_taken, cb_onScreenshotTaken); (reset_view, cb_onResetView);
   (solution_start, cb_onSolutionStart);
   (problem_extracted, cb_onProblemExtracted);
   (solution_error, cb_onSolutionError);
   (solution_success, cb_onSolutionSuccess);
   (debug_start, cb_onDebugStart); (debug_success, cb_onDebugSuccess);
   (debug_error, cb_onDebugError);
   (processing_no_screenshots, cb_onProcessingNoScreenshots)].

(** The cleanup: [unregister && unregister()] on every element. *)
Definition useEffect_cleanup (unregisterFunctions : list (option nat)) : M unit :=
  forEach (λ unregister,
             if truthy unregister then call_value unregister else mret tt)
          unregisterFunctions.

(** [handleDeleteExtraScreenshot], an async function as well: up to the
    [await], and after it.  The first line of the body is outside the
    [try]; [handleDeleteExtraScreenshot_try] is the part of the [try]
    block that runs before the [await]. *)
Definition handleDeleteExtraScreenshot_try (screenshotToDelete : option Screenshot)
  : M unit :=
  p ← liftC (get_path screenshotToDelete);
  electronAPI_deleteScreenshot p.

Definition handleDeleteExtraScreenshot (index : Z) : M unit :=
  screenshotToDelete ← gets (λ s, array_get (extraScreenshots s) index);
  try_catch
    (handleDeleteExtraScreenshot_try screenshotToDelete)
    (λ error, showToast "Error" "Failed to delete the screenshot" toast_error).

Definition handleDeleteExtraScreenshot_resume (p : Settled DeleteReply) : M unit :=
  try_catch
    (response ← await p;
     ok ← liftC (get_success response);
     if (ok : bool) then onScreenshotTaken
     else showToast "Error" "Failed to delete the screenshot" toast_error)
    (λ error, showToast "Error" "Failed to delete the screenshot" toast_error).

(** What both failure paths of the delete operation show. *)
Definition deleteFailedToast : Output :=
  ShowToast (lit "Error") (lit "Failed to delete the screenshot") toast_error.

(** *** What is rendered *)

Inductive Block :=
| ScreenshotQueue (isLoading : bool) (screenshots : list Screenshot)
| SolutionCommands (isProcessing : bool) (screenshots : list Screenshot)
| ProblemStatementSection (content : option jsstring) (isLoading : bool)
| ThoughtsSection (items : list jsstring)
| SolutionSection (content : jsstring)
| ComplexitySection (time space : jsstring).

Inductive Rendered :=
| Debug (isProcessing : bool)
| BaseLayout (children : list Block).

(** Property reads on what a query holds ([solutionData?.code] and the
    like): [undefined] when the object has no such property. *)
Definition get_problem_statement (d : option QueryData) : option jsstring :=
  match d with Some (ProblemData p) => Some (problem_statement p) | _ => None end.
Definition get_thoughts (d : option QueryData) : option (list jsstring) :=
  match d with Some (SolutionData x) => Some (thoughts x) | _ => None end.
Definition get_code (d : option QueryData) : option jsstring :=
  match d with Some (SolutionData x) => Some (code x) | _ => None end.
Definition get_time_complexity (d : option QueryData) : option jsstring :=
  match d with Some (SolutionData x) => Some (time_complexity x) | _ => None end.
Definition get_space_complexity (d : option QueryData) : option jsstring :=
  match d with Some (SolutionData x) => Some (space_complexity x) | _ => None end.

Definition truthy_field (o : option jsstring) : bool :=
  match o with Some x => truthy_string x | None => false end.

(** The JSX the component returns, from the state and the three queries
    it reads.  The props it only passes on (credits, language) are left
    out. *)
Definition render (s : State) : Rendered :=
  let problemStatementData := QueryClient.getQueryData ["problem_statement"%string] (queryClient s) in
  let solutionData := QueryClient.getQueryData ["solution"%string] (queryClient s) in
  let newSolutionData := QueryClient.getQueryData ["new_solution"%string] (queryClient s) in
  if negb (isResetting s) && truthy newSolutionData then
    Debug (debugProcessing s)
  else
    BaseLayout
      ((if truthy solutionData
        then [ScreenshotQueue (debugProcessing s) (extraScreenshots s)] else [])
       ++ [SolutionCommands
             (negb (truthy problemStatementData) || negb (truthy solutionData))
             (extraScreenshots s)]
       ++ (if negb (truthy solutionData)
           then [ProblemStatementSection
                   (get_problem_statement problemStatementData)
                   (negb (truthy problemStatementData))]
           else [])
       ++ (match get_thoughts solutionData with
           | Some ts => [ThoughtsSection ts]
           | None => []
           end)
       ++ (if truthy_field (get_code solutionData)
           then [SolutionSection (default [] (get_code solutionData))] else [])
       ++ (if truthy_field (get_time_complexity solutionData)
              && truthy_field (get_space_complexity solutionData)
           then [ComplexitySection
                   (formatComplexity (get_time_complexity solutionData))
                   (formatComplexity (get_space_complexity solutionData))]
           else [])).

(** Whether the query under a one-element key holds data. *)
Definition cached (key : string) (s : State) : bool :=
  truthy (QueryClient.getQueryData [key] (queryClient s)).

Definition isDebug (r : Rendered) : bool :=
  match r with Debug _ => true | BaseLayout _ => false end.

(** ** The event loop

    One event is one task: the handler body runs to its end (or to its
    [await]) before anything else happens, and the component is rendered
    from the state the task leaves. *)

Inductive Event :=
| ScreenshotTaken
| ResetView
| SolutionStart
| ProblemExtracted (data : option ProblemStatementData)
| SolutionError (error : jsstring)
| SolutionSuccess (data : option Solution)
| DebugStart
| DebugSuccess (data : option Solution)
| DebugError
| ProcessingNoScreenshots
| TimerFires
| ScreenshotsSettle (p : Settled ScreenshotsReply) (now : nat → Z)
| DeleteClicked (index : Z)
| DeleteSettles (p : Settled DeleteReply).

Definition runTimer : M unit := λ s,
  match timers s with
  | [] => (Normal tt, s)
  | t :: ts =>
      match timer_callback t with
      | ClearIsResetting => setIsResetting false (set_timers ts s)
      end
  end.

Definition resumeScreenshots (p : Settled ScreenshotsReply) (now : nat → Z) : M unit := λ s,
  match awaitingScreenshots s with
  | O => (Normal tt, s)
  | S n => onScreenshotTaken_resume p now (set_awaitingScreenshots n s)
  end.

Definition resumeDelete (p : Settled DeleteReply) : M unit := λ s,
  match awaitingDelete s with
  | O => (Normal tt, s)
  | S n => handleDeleteExtraScreenshot_resume p (set_awaitingDelete n s)
  end.

Definition handle (e : Event) : M unit :=
  match e with
  | ScreenshotTaken => onScreenshotTaken
  | ResetView => onResetView
  | SolutionStart => onSolutionStart
  | ProblemExtracted data => onProblemExtracted data
  | SolutionError msg => onSolutionError msg
  | SolutionSuccess data => onSolutionSuccess data
  | DebugStart => onDebugStart
  | DebugSuccess data => onDebugSuccess data
  | DebugError => onDebugError
  | ProcessingNoScreenshots => onProcessingNoScreenshots
  | TimerFires => runTimer
  | ScreenshotsSettle p now => resumeScreenshots p now
  | DeleteClicked index => handleDeleteExtraScreenshot index
  | DeleteSettles p => resumeDelete p
  end.

Definition step (s : State) (e : Event) : State := exec (handle e) s.

Definition run (es : list Event) (s : State) : State := foldl step s es.

(** The component as it is first rendered: the [useState] initial values,
    nothing pending; the cache and the parent's view are what the rest of
    the application left. *)
Definition initialState (c : gmap (list string) Query) (v : View) : State :=
  {| debugProcessing := false; isResetting := false; extraScreenshots := [];
     queryClient := c; view := v; timers := [];
     awaitingScreenshots := 0; awaitingDelete := 0;
     listeners := []; nextListener := 0; trace := [] |}.

(** ** [debounce]

    [debounce(func, wait)] keeps one variable, [timeoutId], and returns a
    function that clears the timer the variable names and sets a new one
    that will call [func] with the arguments just given. *)

Module Debounce.
Section Debounce.

(** The arguments of [func], as one value. *)
Context {A : Type}.
Variable wait : Z.

(** The clock, the timers of the window that the debounced function set
    and that have neither run nor been cleared (handle, captured
    arguments, time due), the closure's [timeoutId], and the arguments
    [func] has been called with so far. *)
Record Window := {
  clock : Z;
  nextHandle : nat;
  pending : list (nat * A * Z);
  timeoutId : option nat;
  calls : list A
}.

(** [window.clearTimeout(id)]; [undefined] names no timer. *)
Definition clearTimeout (h : option nat) (w : Window) : Window :=
  {| clock := clock w; nextHandle := nextHandle w;
     pending := filter (λ t, Some t.1.1 ≠ h) (pending w);
     timeoutId := timeoutId w; calls := calls w |}.

(** [window.setTimeout(() => func(...args), delay)]: a negative delay
    counts as zero; the handle is new. *)
Definition setTimeout (args : A) (delay : Z) (w : Window) : nat * Window :=
  (nextHandle w,
   {| clock := clock w; nextHandle := S (nextHandle w);
      pending := pending w ++ [(nextHandle w, args, clock w + Z.max delay 0)%Z];
      timeoutId := timeoutId w; calls := calls w |}).

(** The function [debounce] returns. *)
Definition debounced (args : A) (w : Window) : Window :=
  let w1 := clearTimeout (timeoutId w) w in
  let r := setTimeout args wait w1 in
  {| clock := clock r.2; nextHandle := nextHandle r.2; pending := pending r.2;
     timeoutId := Some r.1; calls := calls r.2 |}.

(** Time passes. *)
Definition elapse (ms : Z) (w : Window) : Window :=
  {| clock := (clock w + Z.max ms 0)%Z; nextHandle := nextHandle w;
     pending := pending w; timeoutId := timeoutId w; calls := calls w |}.

(** The event loop runs the timers that are due, oldest first; each
    calls [func] with the arguments it captured. *)
Definition runTimers (w : Window) : Window :=
  {| clock := clock w; nextHandle := nextHandle w;
     pending := filter (λ t, ¬ (t.2 ≤ clock w)%Z) (pending w);
     timeoutId := timeoutId w;
     calls := calls w ++ ((λ t, t.1.2) <$> filter (λ t, (t.2 ≤ clock w)%Z) (pending w)) |}.

Inductive Event :=
| Invoke (args : A)
| Elapse (ms : Z)
| RunTimers.

Definition step (w : Window) (e : Event) : Window :=
  match e with
  | Invoke args => debounced args w
  | Elapse ms => elapse ms w
  | RunTimers => runTimers w
  end.

Definition run (es : list Event) (w : Window) : Window := foldl step w es.

(** The arguments the debounced function was invoked with, in order. *)
Definition invocations (es : list Event) : list A :=
  omap (λ e, match e with Invoke args => Some args | _ => None end) es.

(** Right after [debounce(func, wait)]. *)
Definition initial (t0 : Z) (h0 : nat) : Window :=
  {| clock := t0; nextHandle := h0; pending := []; timeoutId := None; calls := [] |}.

(** At most one timer waits, the one [timeoutId] names. *)
Definition single (w : Window) : Prop :=
  pending w = [] ∨ ∃ h a d, pending w = [(h, a, d)] ∧ timeoutId w = Some h.

End Debounce.
End Debounce.

Arguments Debounce.Window : clear implicits.
Arguments Debounce.Event : clear implicits.

(** ** [SolutionSection]: the copy button and the highlighter's language *)

Module CopyButton.

(** [content] is a [React.ReactNode]: a string or something else. *)
Inductive Content :=
| StringContent (text : jsstring)
| OtherContent.

Inductive Output :=
| WriteText (text : jsstring)
| SetTimeout (delay : Z).

(** [copied], the writes to the clipboard that have not settled, the
    delays of the [() => setCopied(false)] tasks that wait, the
    rejections nothing handled, and what was asked of the browser. *)
Record State := {
  copied : bool;
  writing : nat;
  timers : list Z;
  unhandled : list Exn;
  trace : list Output
}.

Definition copyToClipboard (content : Content) (s : State) : State :=
  match content with
  | StringContent text =>
      {| copied := copied s; writing := S (writing s); timers := timers s;
         unhandled := unhandled s; trace := trace s ++ [WriteText text] |}
  | OtherContent => s
  end.

(** The callback given to [.then]: [setCopied(true)], then
    [setTimeout(() => setCopied(false), 2000)]. *)
Definition written (s : State) : State :=
  {| copied := true; writing := writing s; timers := timers s ++ [2000%Z];
     unhandled := unhandled s; trace := trace s ++ [SetTimeout 2000] |}.

(** The promise of [writeText] settles; the chain has no [catch]. *)
Definition settle (p : Settled unit) (s : State) : State :=
  match writing s with
  | O => s
  | S n =>
      let s1 := {| copied := copied s; writing := n; timers := timers s;
                   unhandled := unhandled s; trace := trace s |} in
      match p with
      | Fulfilled _ => written s1
      | Rejected e =>
          {| copied := copied s1; writing := writing s1; timers := timers s1;
             unhandled := unhandled s1 ++ [e]; trace := trace s1 |}
      end
  end.

(** The oldest waiting task runs: [setCopied(false)]. *)
Definition runTimer (s : State) : State :=
  match timers s with
  | [] => s
  | _ :: ts =>
      {| copied := false; writing := writing s; timers := ts;
         unhandled := unhandled s; trace := trace s |}
  end.

Inductive Event :=
| Click (content : Content)
| WriteSettles (p : Settled unit)
| TimerFires.

Definition step (s : State) (e : Event) : State :=
  match e with
  | Click content => copyToClipboard content s
  | WriteSettles p => settle p s
  | TimerFires => runTimer s
  end.

Definition run (es : list Event) (s : State) : State := foldl step s es.

Definition initial : State :=
  {| copied := false; writing := 0; timers := []; unhandled := []; trace := [] |}.

(** [language={currentLanguage === "golang" ? "go" : currentLanguage}] *)
Definition highlighterLanguage (currentLanguage : jsstring) : jsstring :=
  if decide (currentLanguage = lit "golang") then lit "go" else currentLanguage.

(** The label of the button. *)
Definition buttonLabel (s : State) : jsstring :=
  if copied s then lit "Copied!" else lit "Copy".

End CopyButton.

(** ** Reading the trace and the rendered tree *)

(** What the task of an event adds to the trace. *)
Definition emitted (s : State) (e : Event) : list Output :=
  drop (length (trace s)) (trace (step s e)).

Definition isToast (o : Output) : bool :=
  match o with ShowToast _ _ _ => true | _ => false end.

Definition isSetView (o : Output) : bool :=
  match o with SetView _ => true | _ => false end.

Definition isProblemStatementSection (b : Block) : bool :=
  match b with ProblemStatementSection _ _ => true | _ => false end.

Definition isScreenshotQueue (b : Block) : bool :=
  match b with ScreenshotQueue _ _ => true | _ => false end.

Definition isSolutionCommands (b : Block) : bool :=
  match b with SolutionCommands _ _ => true | _ => false end.

Definition isThoughtsSection (b : Block) : bool :=
  match b with ThoughtsSection _ => true | _ => false end.

(** The events that are a platform answer with well-formed screenshots,
    or a reset: the only ones after which the list may differ. *)
Definition changesList (e : Event) : bool :=
  match e with
  | ResetView | ScreenshotsSettle (Fulfilled _) _ => true
  | _ => false
  end.

(** The events whose handler writes or removes cached data. *)
Definition changesData (e : Event) : bool :=
  match e with
  | ResetView | ProblemExtracted _ | SolutionSuccess _ | DebugSuccess _ => true
  | _ => false
  end.

(** The events whose handler may show a toast. *)
Definition mayToast (e : Event) : bool :=
  match e with
  | SolutionError _ | DebugError | ProcessingNoScreenshots
  | DeleteClicked _ | DeleteSettles _ => true
  | _ => false
  end.

(** Listener identities handed out so far are below [nextListener]. *)
Definition listenersFresh (s : State) : Prop :=
  Forall (λ l, (listener_id l < nextListener s)%nat) (listeners s).

(** ** Sample data *)

Definition sampleSolution : Solution :=
  {| code := lit "return 0;"; thoughts := [lit "constant"];
     time_complexity := lit "O(1)"; space_complexity := lit "1" |}.

Definition sampleRaw (name : string) : RawScreenshot :=
  {| raw_path := lit name; raw_preview := lit "data:image/png;base64," |}.

(** The component after the platform answered its first request with two
    screenshots. *)
Definition twoScreenshots : State :=
  run [ScreenshotTaken;
       ScreenshotsSettle
         (Fulfilled (IsArray [Some (sampleRaw "a.png"); Some (sampleRaw "b.png")]))
         (λ _, 1700000000000%Z)]
      (initialState ∅ solutions).

(** The payloads of the specification's scenarios. *)
Definition reverseProblem : ProblemStatementData :=
  {| problem_statement := lit "Reverse a string" |}.

Definition reverseSolution : Solution :=
  {| code := lit "func rev(s string) string {...}";
     thoughts := [lit "iterate"; lit "swap"];
     time_complexity := lit "O(n)"; space_complexity := lit "O(1)" |}.

(** * Properties *)

(** ** Strings, [trim] and the pattern *)

Lemma trimStart_blank s : blank (trimStart s) ↔ blank s.
Proof.
  unfold blank. induction s as [|ch s IH]; simpl; [done|].
  destruct (isWhiteSpace ch) eqn:Hch.
  - rewrite IH. split; [by constructor|]. by inversion 1.
  - done.
Qed.

Lemma trimStart_nil s : trimStart s = [] ↔ blank s.
Proof.
  unfold blank. induction s as [|ch s IH]; simpl.
  - split; [constructor | done].
  - destruct (isWhiteSpace ch) eqn:Hch.
    + rewrite IH. split; [by constructor|]. by inversion 1.
    + split; [done|]. inversion 1; congruence.
Qed.

Lemma blank_rev s : blank (rev s) ↔ blank s.
Proof.
  unfold blank. split; intros H.
  - rewrite <- (rev_involutive s). by apply Forall_rev.
  - by apply Forall_rev.
Qed.

Lemma trim_nil s : trim s = [] ↔ blank s.
Proof.
  unfold trim, trimEnd.
  rewrite <- trimStart_blank, <- blank_rev, <- trimStart_nil.
  split; intros H.
  - apply (f_equal (@rev N)) in H. by rewrite rev_involutive in H.
  - by rewrite H.
Qed.

Lemma oneOrMore_true p k s :
  RegExp.oneOrMore p k s = true ↔
  ∃ body rest, s = body ++ rest ∧ body ≠ [] ∧ Forall (λ ch, p ch = true) body
               ∧ k rest = true.
Proof.
  induction s as [|ch s IH]; simpl.
  - split; [done|]. intros (body & rest & Hs & Hne & _).
    by destruct body.
  - rewrite andb_true_iff, orb_true_iff, IH. split.
    + intros [Hp [(body & rest & -> & Hne & Hall & Hk) | Hk]].
      * exists (ch :: body), rest. repeat split; [done | by constructor | done].
      * exists [ch], s. repeat split; [done | by repeat constructor | done].
    + intros (body & rest & Hs & Hne & Hall & Hk).
      destruct body as [|b body]; [done|]. simpl in Hs. injection Hs as <- ->.
      inversion Hall as [|? ? Hb Hall']; subst. split; [done|].
      destruct body as [|b' body]; [by right|].
      left. exists (b' :: body), rest. by repeat split.
Qed.

Lemma search_true i ts s :
  RegExp.search i ts s = true ↔
  ∃ pre rest, s = pre ++ rest ∧ RegExp.matchAt i ts rest = true.
Proof.
  induction s as [|ch s IH]; simpl; rewrite orb_true_iff.
  - split.
    + intros [H | H]; [by exists [], [] | done].
    + intros (pre & rest & Hs & H). left.
      symmetry in Hs. apply app_eq_nil in Hs as [-> ->]. done.
  - rewrite IH. split.
    + intros [H | (pre & rest & -> & H)].
      * by exists [], (ch :: s).
      * by exists (ch :: pre), rest.
    + intros (pre & rest & Hs & H). destruct pre as [|c pre]; simpl in Hs.
      * left. by subst.
      * right. injection Hs as <- ->. by exists pre, rest.
Qed.

Ltac chr_values :=
  repeat match goal with
  | |- context [chr ?a] =>
      let v := eval vm_compute in (chr a) in change (chr a) with v
  end.

Ltac canonicalize_cases :=
  unfold RegExp.atomMatches, RegExp.Canonicalize; chr_values;
  cbn [existsb orb];
  repeat match goal with
  | |- context [N.leb ?a ?b] => destruct (N.leb_spec a b)
  end;
  cbn [andb negb orb];
  rewrite ?orb_false_r, ?negb_true_iff, ?N.eqb_eq, ?N.eqb_neq; lia.

Lemma atom_O ch :
  RegExp.atomMatches true (RegExp.Char (chr "O")) ch = true ↔
  ch = chr "O" ∨ ch = chr "o".
Proof. canonicalize_cases. Qed.

Lemma atom_open ch :
  RegExp.atomMatches true (RegExp.Char (chr "(")) ch = true ↔ ch = chr "(".
Proof. canonicalize_cases. Qed.

Lemma atom_close ch :
  RegExp.atomMatches true (RegExp.Char (chr ")")) ch = true ↔ ch = chr ")".
Proof. canonicalize_cases. Qed.

Lemma atom_not_close ch :
  RegExp.atomMatches true (RegExp.NotOneOf [chr ")"]) ch = true ↔ ch ≠ chr ")".
Proof. canonicalize_cases. Qed.

Lemma bigORegex_matchAt s :
  RegExp.matchAt true (RegExp.source bigORegex) s = true ↔
  ∃ o body post,
    s = o :: chr "(" :: body ++ chr ")" :: post
    ∧ (o = chr "O" ∨ o = chr "o") ∧ body ≠ [] ∧ chr ")" ∉ body.
Proof.
  cbn [bigORegex RegExp.source RegExp.matchAt]. split.
  - destruct s as [|o [|c s]]; [done | |].
    { rewrite andb_false_r. done. }
    rewrite !andb_true_iff, atom_O, atom_open, oneOrMore_true.
    intros (Ho & -> & body & rest & -> & Hne & Hall & Hk).
    destruct rest as [|c post]; [done|].
    rewrite andb_true_r, atom_close in Hk. subst c.
    exists o, body, post.
    split; [done|]. split; [done|]. split; [done|].
    intros Hin. rewrite Forall_forall in Hall.
    apply Hall in Hin. by apply atom_not_close in Hin.
  - intros (o & body & post & -> & Ho & Hne & Hnin).
    rewrite !andb_true_iff, atom_O, atom_open, oneOrMore_true.
    split; [done|]. split; [done|].
    exists body, (chr ")" :: post).
    split; [done|]. split; [done|]. split.
    + rewrite Forall_forall. intros ch Hin. apply atom_not_close.
      intros ->. done.
    + rewrite andb_true_r. by apply atom_close.
Qed.

(** The pattern of the source accepts exactly the strings that contain a
    Big-O in the specification's sense. *)
Lemma test_bigORegex s : RegExp.test bigORegex s = true ↔ containsBigO s.
Proof.
  unfold RegExp.test, containsBigO. rewrite search_true. split.
  - intros (pre & rest & -> & H). apply bigORegex_matchAt in H.
    destruct H as (o & body & post & -> & H). by exists pre, o, body, post.
  - intros (pre & o & body & post & -> & H).
    exists pre, (o :: chr "(" :: body ++ chr ")" :: post). split; [done|].
    apply bigORegex_matchAt. by exists o, body, post.
Qed.

Lemma containsBigO_not_blank s : containsBigO s → ¬ blank s.
Proof.
  intros (pre & o & body & post & -> & Ho & _) Hb.
  unfold blank in Hb. rewrite Forall_app in Hb. destruct Hb as [_ Hb].
  inversion Hb as [|? ? Hws _]; subst.
  destruct Ho as [-> | ->]; vm_compute in Hws; done.
Qed.

Lemma formatComplexity_not_blank c :
  ¬ blank c →
  formatComplexity (Some c) =
    if RegExp.test bigORegex c then c else lit "O(" ++ c ++ lit ")".
Proof.
  intros Hnb. unfold formatComplexity.
  destruct c as [|ch c]; [by destruct Hnb; constructor|].
  destruct (trim (ch :: c)) as [|? ?] eqn:Ht; [|done].
  apply trim_nil in Ht. done.
Qed.

Lemma formatComplexity_blank c : blank c → formatComplexity (Some c) = lit "N/A".
Proof.
  intros Hb. unfold formatComplexity. apply trim_nil in Hb. rewrite Hb.
  by rewrite orb_true_r.
Qed.

(** C8 (amended).  A complexity string that contains a Big-O pattern,
    in either case, is displayed as it is; a string without one that is
    not blank (it has a character that [trim] keeps) is wrapped once, as
    [O(<value>)]; a blank string is displayed as [N/A]. *)
Theorem formatComplexity_wraps_once (c : jsstring) :
  (containsBigO c → formatComplexity (Some c) = c)
  ∧ (¬ containsBigO c → ¬ blank c →
     formatComplexity (Some c) = lit "O(" ++ c ++ lit ")")
  ∧ (blank c → formatComplexity (Some c) = lit "N/A").
Proof.
  split; [|split].
  - intros H. rewrite formatComplexity_not_blank by by apply containsBigO_not_blank.
    apply test_bigORegex in H. by rewrite H.
  - intros H Hnb. rewrite formatComplexity_not_blank by done.
    destruct (RegExp.test bigORegex c) eqn:Ht; [|done].
    by apply test_bigORegex in Ht.
  - apply formatComplexity_blank.
Qed.

Lemma formatComplexity_wraps_once_witness :
  formatComplexity (Some (lit "O(n)")) = lit "O(n)"
  ∧ formatComplexity (Some (lit "n log n")) = lit "O(n log n)"
  ∧ formatComplexity (Some (lit "  ")) = lit "N/A".
Proof.
  split; [|split].
  - apply (proj1 (formatComplexity_wraps_once (lit "O(n)"))).
    apply test_bigORegex. reflexivity.
  - apply (proj1 (proj2 (formatComplexity_wraps_once (lit "n log n")))).
    + intros H. apply test_bigORegex in H. vm_compute in H. discriminate.
    + intros H. inversion H as [|? ? Hws _]. vm_compute in Hws. discriminate.
  - apply (proj2 (proj2 (formatComplexity_wraps_once (lit "  ")))).
    repeat constructor.
Defined.

(** C8 as stated fails: a string of one space is not empty and holds no
    Big-O pattern, and it is displayed as [N/A], not wrapped. *)
Lemma formatComplexity_space_not_wrapped :
  ¬ (∀ c : jsstring, c ≠ [] → ¬ containsBigO c →
       formatComplexity (Some c) = lit "O(" ++ c ++ lit ")").
Proof.
  intros H.
  assert (Hne : lit " " ≠ []) by discriminate.
  assert (Hno : ¬ containsBigO (lit " ")).
  { intros Hb. apply test_bigORegex in Hb. vm_compute in Hb. discriminate Hb. }
  specialize (H (lit " ") Hne Hno). vm_compute in H. discriminate H.
Qed.

(** ** The view selector *)

Lemma new_solution_ne_solution : ["solution"%string] ≠ ["new_solution"%string].
Proof. discriminate. Qed.

Lemma isDebug_render s :
  isDebug (render s)
  = negb (isResetting s)
    && truthy (QueryClient.getQueryData ["new_solution"%string] (queryClient s)).
Proof. unfold render. by destruct (negb (isResetting s) && truthy _). Qed.

(** C1.  The Debug view is rendered exactly when [isResetting] is false
    and the [new_solution] entry is present; otherwise the base layout
    is; and whether a [solution] entry is present makes no difference. *)
Theorem render_debug_iff (s : State) :
  isDebug (render s)
    = negb (isResetting s)
      && truthy (QueryClient.getQueryData ["new_solution"%string] (queryClient s))
  ∧ match render s with
    | Debug _ =>
        isResetting s = false
        ∧ is_Some (QueryClient.getQueryData ["new_solution"%string] (queryClient s))
    | BaseLayout _ =>
        isResetting s = true
        ∨ QueryClient.getQueryData ["new_solution"%string] (queryClient s) = None
    end
  ∧ ∀ solutionEntry : option Query,
      isDebug (render (set_queryClient
                         (partial_alter (λ _, solutionEntry) ["solution"%string]
                            (queryClient s)) s))
      = isDebug (render s).
Proof.
  split; [|split].
  - apply isDebug_render.
  - unfold render.
    destruct (isResetting s); simpl; [by left|].
    destruct (QueryClient.getQueryData ["new_solution"%string] (queryClient s)); simpl.
    + split; [done | by eexists].
    + by right.
  - intros solutionEntry. rewrite !isDebug_render.
    unfold QueryClient.getQueryData. simpl.
    by rewrite (lookup_partial_alter_ne _ _ _ _ new_solution_ne_solution).
Qed.

(** ** Handlers *)

Ltac handler :=
  cbv [exec escapes step handle mbind M_bind mret M_ret modify gets throw
       try_catch liftC await
       onScreenshotTaken onScreenshotTaken_resume onResetView onSolutionStart
       onProblemExtracted onSolutionError onSolutionSuccess onDebugStart
       onDebugSuccess onDebugError onProcessingNoScreenshots
       handleDeleteExtraScreenshot handleDeleteExtraScreenshot_try
       handleDeleteExtraScreenshot_resume runTimer resumeScreenshots resumeDelete
       setDebugProcessing setIsResetting setExtraScreenshots
       queryClient_getQueryData queryClient_setQueryData
       queryClient_removeQueries queryClient_invalidateQueries
       showToast showToast_msg console_error console_warn setView setTimeout
       electronAPI_getScreenshots electronAPI_deleteScreenshot].

Lemma getQueryData_removeQueries key k c :
  QueryClient.getQueryData k (QueryClient.removeQueries key c)
  = if QueryClient.matchesKey key k then None else QueryClient.getQueryData k c.
Proof.
  unfold QueryClient.getQueryData, QueryClient.removeQueries.
  destruct (QueryClient.matchesKey key k) eqn:Hm.
  - rewrite (proj2 (map_lookup_filter_None _ c k)); [done|].
    right. intros q _. simpl. congruence.
  - destruct (c !! k) as [q|] eqn:Hq.
    + rewrite (proj2 (map_lookup_filter_Some _ c k q)); [done|]. by split.
    + rewrite (proj2 (map_lookup_filter_None _ c k)); [done|]. by left.
Qed.

Lemma getQueryData_setQueryData key k v c :
  QueryClient.getQueryData k (QueryClient.setQueryData key v c)
  = match v with
    | Some d => if decide (key = k) then Some d else QueryClient.getQueryData k c
    | None => QueryClient.getQueryData k c
    end.
Proof.
  unfold QueryClient.getQueryData, QueryClient.setQueryData.
  destruct v as [d|]; [|done].
  rewrite lookup_insert. by destruct (decide (key = k)).
Qed.

Lemma run_app es1 es2 s : run (es1 ++ es2) s = run es2 (run es1 s).
Proof. unfold run. apply foldl_app. Qed.

(** Once the tasks queued with [setTimeout] have all run, and there was
    at least one, the reset flag is down. *)
Lemma timers_clear_isResetting n :
  ∀ s, length (timers s) = S n →
       isResetting (run (replicate (S n) TimerFires) s) = false.
Proof.
  induction n as [|n IH]; intros s Hlen.
  - destruct (timers s) as [|[[] d] ts] eqn:Ht; [done|].
    simpl. unfold step at 1. handler. by rewrite Ht.
  - destruct (timers s) as [|[[] d] ts] eqn:Ht; [done|].
    change (replicate (S (S n)) TimerFires)
      with ([TimerFires] ++ replicate (S n) TimerFires).
    rewrite run_app. apply IH.
    simpl. unfold step. handler. rewrite Ht. simpl.
    simpl in Hlen. lia.
Qed.

Lemma onResetView_cleared s :
  QueryClient.getQueryData ["solution"%string] (queryClient (exec onResetView s)) = None
  ∧ QueryClient.getQueryData ["new_solution"%string] (queryClient (exec onResetView s)) = None.
Proof. handler. simpl. by rewrite !getQueryData_removeQueries. Qed.

(** C2.  The reset handler raises [isResetting], removes the [solution]
    and [new_solution] entries in the one task it runs in, so that the
    state rendered next has neither, empties the screenshot list, and
    hands [setTimeout] a zero-delay task that lowers [isResetting]; the
    flag is still up when the handler's task ends, and down once the
    queued tasks have run. *)
Theorem onResetView_spec (s : State) :
  let s' := exec onResetView s in
  escapes onResetView s = None
  ∧ isResetting s' = true
  ∧ QueryClient.getQueryData ["solution"%string] (queryClient s') = None
  ∧ QueryClient.getQueryData ["new_solution"%string] (queryClient s') = None
  ∧ extraScreenshots s' = []
  ∧ timers s'
    = timers s ++ [{| timer_callback := ClearIsResetting; timer_delay := 0 |}]
  ∧ trace s'
    = trace s ++ [RemoveQueries ["solution"%string];
                  RemoveQueries ["new_solution"%string];
                  SetTimeout ClearIsResetting 0]
  ∧ isDebug (render s') = false
  ∧ isResetting (run (replicate (length (timers s')) TimerFires) s') = false.
Proof.
  destruct (onResetView_cleared s) as [Hsol Hnew].
  assert (Htimers : timers (exec onResetView s)
            = timers s ++ [{| timer_callback := ClearIsResetting; timer_delay := 0 |}])
    by reflexivity.
  cbv zeta. split; [done|]. split; [done|]. split; [done|]. split; [done|].
  split; [done|]. split; [done|]. split; [|split].
  - handler. simpl. by rewrite <- !app_assoc.
  - by rewrite isDebug_render.
  - rewrite Htimers, length_app, Nat.add_comm. simpl.
    apply timers_clear_isResetting.
    rewrite Htimers, length_app, Nat.add_comm. done.
Qed.

(** ** The screenshot list *)

Lemma slice_MAX_length {A} (l : list A) :
  (length (slice (- MAX_SCREENSHOTS) l) ≤ 100)%nat.
Proof.
  unfold slice, MAX_SCREENSHOTS. simpl. rewrite length_drop. lia.
Qed.

Lemma slice_MAX_long {A} (l : list A) :
  (100 < length l)%nat →
  slice (- MAX_SCREENSHOTS) l = drop (length l - 100) l.
Proof.
  intros H. unfold slice, MAX_SCREENSHOTS. simpl. f_equal. lia.
Qed.

Lemma slice_MAX_short {A} (l : list A) :
  (length l ≤ 100)%nat → slice (- MAX_SCREENSHOTS) l = l.
Proof.
  intros H. unfold slice, MAX_SCREENSHOTS. simpl.
  replace (Z.to_nat _) with 0%nat by lia. done.
Qed.

Lemma array_map_toScreenshot now raws :
  ∀ i, array_map (toScreenshot now) i (Some <$> raws)
       = Normal (imap (λ j, screenshotOf now (i + j)) raws).
Proof.
  induction raws as [|r raws IH]; intros i; simpl; [done|].
  rewrite IH, Nat.add_0_r. do 2 f_equal.
  apply imap_ext. intros j x _. simpl. f_equal. lia.
Qed.

(** What the list is after the continuation of [onScreenshotTaken]. *)
Lemma onScreenshotTaken_resume_list p now s :
  extraScreenshots (exec (onScreenshotTaken_resume p now) s)
  = match p with
    | Fulfilled existing =>
        match array_map (toScreenshot now) 0 (arrayOrEmpty existing) with
        | Normal l => slice (- MAX_SCREENSHOTS) l
        | Throw _ => extraScreenshots s
        end
    | Rejected _ => extraScreenshots s
    end.
Proof.
  handler. destruct p as [existing|e]; [|done].
  by destruct (array_map (toScreenshot now) 0 (arrayOrEmpty existing)).
Qed.

Lemma onScreenshotTaken_resume_total p now s :
  escapes (onScreenshotTaken_resume p now) s = None.
Proof.
  handler. destruct p as [existing|e]; [|done].
  by destruct (array_map (toScreenshot now) 0 (arrayOrEmpty existing)).
Qed.

Lemma step_bound s e :
  (length (extraScreenshots s) ≤ 100)%nat →
  (length (extraScreenshots (step s e)) ≤ 100)%nat.
Proof.
  intros H. destruct e; try (handler; simpl; done || lia).
  - (* solution-error *)
    handler. simpl.
    by destruct (QueryClient.getQueryData ["solution"%string] (queryClient s)).
  - (* solution-success *)
    handler. by destruct data.
  - (* a timer *)
    handler. by destruct (timers s) as [|[[] ?] ?].
  - (* the screenshots arrive *)
    unfold step, handle, resumeScreenshots, exec.
    destruct (awaitingScreenshots s) as [|n]; [done|].
    fold (exec (onScreenshotTaken_resume p now) (set_awaitingScreenshots n s)).
    rewrite onScreenshotTaken_resume_list.
    destruct p as [existing|?]; [|done].
    destruct (array_map _ _ _); [apply slice_MAX_length | done].
  - (* a delete is asked for *)
    handler. simpl.
    by destruct (array_get (extraScreenshots s) index).
  - (* the delete settles *)
    handler. destruct (awaitingDelete s) as [|n]; [done|].
    by destruct p as [[|[]]|?].
Qed.

Lemma run_bound es :
  ∀ s, (length (extraScreenshots s) ≤ 100)%nat →
       (length (extraScreenshots (run es s)) ≤ 100)%nat.
Proof.
  induction es as [|e es IH]; intros s H; [done|].
  simpl. apply IH. by apply step_bound.
Qed.

Lemma resumeScreenshots_list s raws now :
  awaitingScreenshots s ≠ 0%nat →
  extraScreenshots
    (step s (ScreenshotsSettle (Fulfilled (IsArray (Some <$> raws))) now))
  = slice (- MAX_SCREENSHOTS) (imap (screenshotOf now) raws).
Proof.
  intros Hne. unfold step, handle, resumeScreenshots, exec.
  destruct (awaitingScreenshots s) as [|n]; [done|].
  fold (exec (onScreenshotTaken_resume (Fulfilled (IsArray (Some <$> raws))) now)
          (set_awaitingScreenshots n s)).
  rewrite onScreenshotTaken_resume_list. simpl.
  by rewrite array_map_toScreenshot.
Qed.

(** C3.  Whatever events the component handles, the screenshot list
    never holds more than 100 entries; and when the platform answers
    with more than 100 screenshots, the list becomes the last 100 of
    them in the platform's order, the ones before them being left out. *)
Theorem screenshots_bounded :
  (∀ es c v,
     (length (extraScreenshots (run es (initialState c v))) ≤ 100)%nat)
  ∧ (∀ s raws now,
       awaitingScreenshots s ≠ 0%nat →
       (100 < length raws)%nat →
       let s' := step s (ScreenshotsSettle (Fulfilled (IsArray (Some <$> raws))) now) in
       extraScreenshots s'
       = drop (length raws - 100) (imap (screenshotOf now) raws)
       ∧ length (extraScreenshots s') = 100%nat
       ∧ imap (screenshotOf now) raws
         = take (length raws - 100) (imap (screenshotOf now) raws)
           ++ extraScreenshots s').
Proof.
  split.
  - intros es c v. apply run_bound. simpl. lia.
  - intros s raws now Hne Hlen. cbv zeta.
    rewrite resumeScreenshots_list by done.
    rewrite slice_MAX_long by (by rewrite length_imap).
    rewrite length_imap. split; [done|]. split.
    + rewrite length_drop, length_imap. lia.
    + by rewrite take_drop.
Qed.

Lemma screenshots_bounded_witness :
  path <$> extraScreenshots
    (step (step (initialState ∅ queue) ScreenshotTaken)
       (ScreenshotsSettle
          (Fulfilled (IsArray (Some <$>
             ((λ n, {| raw_path := [N.of_nat n]; raw_preview := [] |}) <$> seq 0 101))))
          Z.of_nat))
  = (λ n, [N.of_nat n]) <$> seq 1 100.
Proof.
  rewrite (proj1 (proj2 screenshots_bounded
                    (step (initialState ∅ queue) ScreenshotTaken)
                    ((λ n, {| raw_path := [N.of_nat n]; raw_preview := [] |}) <$> seq 0 101)
                    Z.of_nat
                    ltac:(vm_compute; discriminate)
                    ltac:(vm_compute; lia))).
  vm_compute. reflexivity.
Defined.

(** ** Subscriptions *)

Lemma useEffect_cleanup_trace fs :
  ∀ s, escapes (useEffect_cleanup fs) s = None
       ∧ trace (exec (useEffect_cleanup fs) s)
         = trace s ++ (Unregister <$> omap (λ f, f) fs).
Proof.
  unfold useEffect_cleanup.
  induction fs as [|[n|] fs IH]; intros s.
  - simpl. split; [done|]. by rewrite app_nil_r.
  - destruct (IH (exec (call_unregister n) s)) as [IH1 IH2].
    split; [exact IH1|].
    etransitivity; [exact IH2|]. simpl. by rewrite <- app_assoc.
  - destruct (IH s) as [IH1 IH2]. split; [exact IH1 | exact IH2].
Qed.

(** C4.  At activation the effect binds one handler to each of the ten
    named events, each event once, and keeps what the bridge returned;
    at deactivation the cleanup calls every unregister function that was
    returned, in order, passes over the absent ones, and throws
    nothing. *)
Theorem subscriptions_spec (returnsUnregister : EventName → bool) (s : State) :
  let r := useEffect_setup returnsUnregister s in
  r.1 = Normal (imap (λ i ev, if returnsUnregister ev
                              then Some (i + nextListener s)%nat else None)
                  namedEvents)
  ∧ trace r.2 = trace s ++ GetScreenshots :: ((λ r, On r.1 r.2) <$> registrations)
  ∧ listeners r.2
    = listeners s
      ++ imap (λ i r, {| listener_id := (i + nextListener s)%nat;
                         listener_event := r.1; listener_callback := r.2 |})
           registrations
  ∧ fst <$> registrations = namedEvents
  ∧ NoDup namedEvents
  ∧ (∀ ev : EventName, ev ∈ namedEvents)
  ∧ ∀ (fs : list (option nat)) (s2 : State),
      escapes (useEffect_cleanup fs) s2 = None
      ∧ trace (exec (useEffect_cleanup fs) s2)
        = trace s2 ++ (Unregister <$> omap (λ f, f) fs).
Proof.
  cbv zeta. split; [|split; [|split; [|split; [|split; [|split]]]]].
  - unfold useEffect_setup, namedEvents. handler.
    cbv [electronAPI_on imap]. simpl. done.
  - unfold useEffect_setup. handler. cbv [electronAPI_on]. simpl.
    by rewrite <- !app_assoc.
  - unfold useEffect_setup. handler. cbv [electronAPI_on]. simpl.
    by rewrite <- !app_assoc.
  - done.
  - unfold namedEvents. apply NoDup_ListNoDup.
    repeat (constructor; [simpl; intuition discriminate|]). constructor.
  - intros []; unfold namedEvents; set_solver.
  - intros fs s2. apply useEffect_cleanup_trace.
Qed.

(** ** Solution events *)

(** C5.  A solution-success event whose payload is undefined only logs a
    warning: the cache, and with it the [solution] entry, is as before
    and no screenshots are requested.  With a payload, the [solution]
    entry becomes the payload and then the screenshots are requested
    again; the list is replaced when they arrive. *)
Theorem onSolutionSuccess_spec (s : State) :
  (exec (onSolutionSuccess None) s
   = emit (ConsoleWarn (lit "Received empty or invalid solution data")) s
   ∧ queryClient (exec (onSolutionSuccess None) s) = queryClient s
   ∧ awaitingScreenshots (exec (onSolutionSuccess None) s) = awaitingScreenshots s
   ∧ trace (exec (onSolutionSuccess None) s)
     = trace s ++ [ConsoleWarn (lit "Received empty or invalid solution data")])
  ∧ ∀ d : Solution,
      let s' := exec (onSolutionSuccess (Some d)) s in
      QueryClient.getQueryData ["solution"%string] (queryClient s')
      = Some (SolutionData d)
      ∧ trace s'
        = trace s ++ [SetQueryData ["solution"%string] (Some (SolutionData d));
                      GetScreenshots]
      ∧ awaitingScreenshots s' = S (awaitingScreenshots s)
      ∧ extraScreenshots s' = extraScreenshots s
      ∧ ∀ raws now,
          extraScreenshots
            (step s' (ScreenshotsSettle (Fulfilled (IsArray (Some <$> raws))) now))
          = slice (- MAX_SCREENSHOTS) (imap (screenshotOf now) raws).
Proof.
  split; [done|]. intros d. cbv zeta.
  split; [|split; [|split; [|split]]].
  - handler. simpl. rewrite getQueryData_setQueryData. by case_decide.
  - handler. simpl. by rewrite <- app_assoc.
  - done.
  - done.
  - intros raws now. by apply resumeScreenshots_list.
Qed.

(** C6.  A solution-error event always shows an error toast with the
    event's message.  [setView("queue")] is called exactly when no
    [solution] entry is cached; with one cached the view stays, and the
    cache is untouched either way. *)
Theorem onSolutionError_spec (error : jsstring) (s : State) :
  let s' := exec (onSolutionError error) s in
  let cached := truthy (QueryClient.getQueryData ["solution"%string] (queryClient s)) in
  escapes (onSolutionError error) s = None
  ∧ trace s'
    = trace s
      ++ [ShowToast (lit "Processing Failed") error toast_error]
      ++ (if cached then [] else [SetView queue])
      ++ [ConsoleError (lit "Processing error:") (LogStr error)]
  ∧ view s' = (if cached then view s else queue)
  ∧ queryClient s' = queryClient s
  ∧ isDebug (render s') = isDebug (render s).
Proof.
  cbv zeta. rewrite !isDebug_render. handler. simpl.
  destruct (QueryClient.getQueryData ["solution"%string] (queryClient s));
    simpl; rewrite <- ?app_assoc; done.
Qed.

(** ** Debug events *)

(** C9 (amended).  The debug-success handler does not look at its
    payload: whatever it is, it is handed to [setQueryData] for
    [new_solution] and the debug-processing flag is cleared.  A payload
    that is present becomes the entry.  An undefined payload leaves the
    entry, and so the choice between the Debug view and the base layout,
    as they were. *)
Theorem onDebugSuccess_spec (data : option Solution) (s : State) :
  let s' := exec (onDebugSuccess data) s in
  escapes (onDebugSuccess data) s = None
  ∧ trace s' = trace s ++ [SetQueryData ["new_solution"%string] (SolutionData <$> data)]
  ∧ debugProcessing s' = false
  ∧ QueryClient.getQueryData ["new_solution"%string] (queryClient s')
    = match data with
      | Some d => Some (SolutionData d)
      | None => QueryClient.getQueryData ["new_solution"%string] (queryClient s)
      end
  ∧ isDebug (render s')
    = match data with
      | Some _ => negb (isResetting s)
      | None => isDebug (render s)
      end.
Proof.
  cbv zeta. rewrite !isDebug_render. handler. simpl.
  rewrite getQueryData_setQueryData.
  destruct data as [d|]; simpl; [|done].
  by rewrite andb_true_r.
Qed.

(** C9 as stated fails: when a [new_solution] entry is cached, an
    undefined payload does not remove it, and the Debug view stays. *)
Lemma onDebugSuccess_undefined_keeps_debug :
  ¬ (∀ s : State,
       let s' := exec (onDebugSuccess None) s in
       QueryClient.getQueryData ["new_solution"%string] (queryClient s') = None
       ∧ isDebug (render s') = false).
Proof.
  intros H.
  destruct (H (exec (onDebugSuccess (Some sampleSolution)) (initialState ∅ solutions)))
    as [_ Hview].
  vm_compute in Hview. discriminate Hview.
Qed.

(** ** Deleting a screenshot *)

Lemma array_get_None {A} (l : list A) (index : Z) :
  array_get l index = None ↔ (index < 0 ∨ Z.of_nat (length l) ≤ index)%Z.
Proof.
  unfold array_get. destruct (Z.ltb_spec index 0).
  - split; [by left | done].
  - rewrite lookup_ge_None. lia.
Qed.

(** C7.  The delete operation looks the index up, and for an entry asks
    the platform to delete its path, leaving the list alone.  When the
    platform answers with success the screenshots are requested again
    and the list is replaced by what arrives, nothing being cut out of
    the local list; on any other answer, or a rejection, an error toast
    is shown and nothing else changes. *)
Theorem handleDeleteExtraScreenshot_spec (s : State) :
  (∀ index sh,
     array_get (extraScreenshots s) index = Some sh →
     exec (handleDeleteExtraScreenshot index) s
     = emit (DeleteScreenshot (path sh)) (set_awaitingDelete (S (awaitingDelete s)) s))
  ∧ (let s' := exec (handleDeleteExtraScreenshot_resume (Fulfilled (Response true))) s in
     trace s' = trace s ++ [GetScreenshots]
     ∧ extraScreenshots s' = extraScreenshots s
     ∧ awaitingScreenshots s' = S (awaitingScreenshots s)
     ∧ ∀ raws now,
         extraScreenshots
           (step s' (ScreenshotsSettle (Fulfilled (IsArray (Some <$> raws))) now))
         = slice (- MAX_SCREENSHOTS) (imap (screenshotOf now) raws))
  ∧ (∀ p, p ≠ Fulfilled (Response true) →
          exec (handleDeleteExtraScreenshot_resume p) s = emit deleteFailedToast s).
Proof.
  split; [|split].
  - intros index sh Hget. handler. simpl. by rewrite Hget.
  - cbv zeta. split; [done|]. split; [done|]. split; [done|].
    intros raws now. by apply resumeScreenshots_list.
  - intros p Hp. handler. by destruct p as [[|[]]|?].
Qed.

Lemma handleDeleteExtraScreenshot_spec_witness :
  trace (exec (handleDeleteExtraScreenshot 1) twoScreenshots)
  = [GetScreenshots; DeleteScreenshot (lit "b.png")]
  ∧ exec (handleDeleteExtraScreenshot_resume (Fulfilled (Response false))) twoScreenshots
    = emit deleteFailedToast twoScreenshots
  ∧ exec (handleDeleteExtraScreenshot_resume (Rejected (Error (lit "EPERM")))) twoScreenshots
    = emit deleteFailedToast twoScreenshots.
Proof.
  split; [|split].
  - rewrite (proj1 (handleDeleteExtraScreenshot_spec twoScreenshots) 1%Z
               (screenshotOf (λ _, 1700000000000%Z) 1 (sampleRaw "b.png"))
               ltac:(reflexivity)).
    reflexivity.
  - apply (proj2 (proj2 (handleDeleteExtraScreenshot_spec twoScreenshots))).
    discriminate.
  - apply (proj2 (proj2 (handleDeleteExtraScreenshot_spec twoScreenshots))).
    discriminate.
Defined.

(** C10.  Whatever the index, the delete handler ends without an
    exception and with the list it started from.  For an index with no
    entry, the read of [path] throws a [TypeError] inside the [try]
    block, and the handler's [catch] turns it into the error toast. *)
Theorem handleDeleteExtraScreenshot_no_escape (index : Z) (s : State) :
  escapes (handleDeleteExtraScreenshot index) s = None
  ∧ extraScreenshots (exec (handleDeleteExtraScreenshot index) s)
    = extraScreenshots s
  ∧ ((index < 0 ∨ Z.of_nat (length (extraScreenshots s)) ≤ index)%Z →
     array_get (extraScreenshots s) index = None
     ∧ escapes (handleDeleteExtraScreenshot_try None) s = Some TypeError
     ∧ exec (handleDeleteExtraScreenshot index) s = emit deleteFailedToast s)
  ∧ ∀ p, escapes (handleDeleteExtraScreenshot_resume p) s = None
         ∧ extraScreenshots (exec (handleDeleteExtraScreenshot_resume p) s)
           = extraScreenshots s.
Proof.
  split; [|split; [|split]].
  - handler. simpl. by destruct (array_get (extraScreenshots s) index).
  - handler. simpl. by destruct (array_get (extraScreenshots s) index).
  - intros Hout. apply array_get_None in Hout. split; [done|]. split; [done|].
    handler. simpl. by rewrite Hout.
  - intros p. handler. by destruct p as [[|[]]|?].
Qed.

Lemma handleDeleteExtraScreenshot_no_escape_witness :
  exec (handleDeleteExtraScreenshot 2) twoScreenshots
  = emit deleteFailedToast twoScreenshots
  ∧ exec (handleDeleteExtraScreenshot (-1)) twoScreenshots
    = emit deleteFailedToast twoScreenshots.
Proof.
  split.
  - apply (proj1 (proj2 (proj2 (handleDeleteExtraScreenshot_no_escape 2 twoScreenshots)))).
    right. vm_compute. discriminate.
  - apply (proj1 (proj2 (proj2 (handleDeleteExtraScreenshot_no_escape (-1) twoScreenshots)))).
    left. reflexivity.
Defined.

(** ** The two solution entries over the event loop *)

Lemma getQueryData_invalidateQueries key k c :
  QueryClient.getQueryData k (QueryClient.invalidateQueries key c)
  = QueryClient.getQueryData k c.
Proof.
  unfold QueryClient.getQueryData, QueryClient.invalidateQueries.
  rewrite map_lookup_imap. destruct (c !! k) as [q|]; simpl; [|done].
  by destruct (QueryClient.matchesKey key k).
Qed.

(** X14.  A task of the component that takes away one of the two solution
    entries takes away both: what is rendered after any task never has
    one of them newly cleared and the other still there. *)
Lemma cleared_together s e :
  (cached "solution" s = true ∧ cached "solution" (step s e) = false
   ∨ cached "new_solution" s = true ∧ cached "new_solution" (step s e) = false) →
  cached "solution" (step s e) = false
  ∧ cached "new_solution" (step s e) = false.
Proof.
  unfold cached.
  destruct e; try (handler; simpl; intros [[? ?]|[? ?]]; congruence).
  - (* reset-view *)
    intros _. change (step s ResetView) with (exec onResetView s).
    destruct (onResetView_cleared s) as [-> ->]. done.
  - (* solution-start *)
    handler. simpl. rewrite !getQueryData_invalidateQueries.
    intros [[? ?]|[? ?]]; congruence.
  - (* problem-extracted *)
    handler. simpl. rewrite !getQueryData_setQueryData.
    destruct data; simpl; intros [[? ?]|[? ?]]; congruence.
  - (* solution-error *)
    handler. simpl.
    destruct (QueryClient.getQueryData ["solution"%string] (queryClient s)) eqn:E;
      simpl; rewrite ?E; simpl; intros [[? ?]|[? ?]]; congruence.
  - (* solution-success *)
    handler. destruct data; simpl; rewrite ?getQueryData_setQueryData; simpl;
      intros [[? ?]|[? ?]]; congruence.
  - (* debug-success *)
    handler. simpl. rewrite !getQueryData_setQueryData.
    destruct data; simpl; intros [[? ?]|[? ?]]; congruence.
  - (* a timer *)
    handler. destruct (timers s) as [|[[] ?] ?]; simpl;
      intros [[? ?]|[? ?]]; congruence.
  - (* the screenshots arrive *)
    handler. destruct (awaitingScreenshots s) as [|n]; simpl.
    { intros [[? ?]|[? ?]]; congruence. }
    destruct p as [existing|?]; simpl.
    + destruct (array_map _ _ _); simpl; intros [[? ?]|[? ?]]; congruence.
    + intros [[? ?]|[? ?]]; congruence.
  - (* a delete is asked for *)
    handler. simpl. destruct (array_get (extraScreenshots s) index); simpl;
      intros [[? ?]|[? ?]]; congruence.
  - (* the delete settles *)
    handler. destruct (awaitingDelete s) as [|n]; simpl.
    { intros [[? ?]|[? ?]]; congruence. }
    destruct p as [[|[]]|?]; simpl; intros [[? ?]|[? ?]]; congruence.
Qed.

(** ** The scenarios of the specification *)

Example scenario_A :
  render (run [ProblemExtracted (Some reverseProblem)] (initialState ∅ solutions))
  = BaseLayout [SolutionCommands true [];
                ProblemStatementSection (Some (lit "Reverse a string")) false].
Proof. vm_compute. reflexivity. Qed.

Example scenario_B :
  render (run [ProblemExtracted (Some reverseProblem);
               SolutionSuccess (Some reverseSolution)]
            (initialState ∅ solutions))
  = BaseLayout [ScreenshotQueue false [];
                SolutionCommands false [];
                ThoughtsSection [lit "iterate"; lit "swap"];
                SolutionSection (lit "func rev(s string) string {...}");
                ComplexitySection (lit "O(n)") (lit "O(1)")].
Proof. vm_compute. reflexivity. Qed.

Example scenario_D_debug :
  render (run [SolutionSuccess (Some reverseSolution);
               DebugStart; DebugSuccess (Some sampleSolution)]
            (initialState ∅ solutions))
  = Debug false.
Proof. vm_compute. reflexivity. Qed.

Example scenario_D_reset :
  render (run [SolutionSuccess (Some reverseSolution);
               DebugStart; DebugSuccess (Some sampleSolution);
               ResetView; TimerFires]
            (initialState ∅ solutions))
  = BaseLayout [SolutionCommands true []; ProblemStatementSection None true].
Proof. vm_compute. reflexivity. Qed.

Example debug_success_undefined_after_debug :
  render (run [DebugSuccess (Some sampleSolution); DebugStart; DebugSuccess None]
            (initialState ∅ solutions))
  = Debug false.
Proof. vm_compute. reflexivity. Qed.

Example formatComplexity_examples :
  formatComplexity None = lit "N/A"
  ∧ formatComplexity (Some []) = lit "N/A"
  ∧ formatComplexity (Some (lit "n^2")) = lit "O(n^2)"
  ∧ formatComplexity (Some (lit "about o(log n) amortised")) = lit "about o(log n) amortised"
  ∧ formatComplexity (Some (lit "O()")) = lit "O(O())".
Proof. vm_compute. repeat split. Qed.

(** * Further properties of the component *)

(** ** What a task adds to the trace *)

Ltac extends_trace :=
  simpl; rewrite <- ?app_assoc;
  first [ by (exists []; rewrite app_nil_r) | by eexists ].

Lemma trace_extends s e : ∃ new, trace (step s e) = trace s ++ new.
Proof.
  destruct e; handler; simpl; try extends_trace.
  - destruct (QueryClient.getQueryData ["solution"%string] (queryClient s));
      extends_trace.
  - destruct data; extends_trace.
  - destruct (timers s) as [|[[] ?] ?]; extends_trace.
  - destruct (awaitingScreenshots s) as [|n]; [extends_trace|].
    destruct p as [existing|?]; [|extends_trace].
    destruct (array_map _ _ _); extends_trace.
  - destruct (array_get (extraScreenshots s) index); extends_trace.
  - destruct (awaitingDelete s) as [|n]; [extends_trace|].
    destruct p as [[|[]]|?]; extends_trace.
Qed.

Lemma trace_emitted s e : trace (step s e) = trace s ++ emitted s e.
Proof.
  unfold emitted. destruct (trace_extends s e) as [new ->].
  by rewrite drop_app_length.
Qed.

Lemma emitted_eq s e new : trace (step s e) = trace s ++ new → emitted s e = new.
Proof. intros H. unfold emitted. rewrite H. apply drop_app_length. Qed.

Ltac event_cases s e :=
  destruct e; handler; simpl;
  [ | | |
  | destruct (QueryClient.getQueryData ["solution"%string] (queryClient s)) eqn:?;
    simpl
  | match goal with data : option Solution |- _ => destruct data; simpl end
  | | | |
  | destruct (timers s) as [|[[] ?] ?] eqn:?; simpl
  | destruct (awaitingScreenshots s) as [|?] eqn:?; simpl;
    [| match goal with p : Settled ScreenshotsReply |- _ =>
         destruct p as [?|?]; simpl;
         [destruct (array_map _ _ _) eqn:?; simpl |]
       end]
  | destruct (array_get _ _) eqn:?; simpl
  | destruct (awaitingDelete s) as [|?] eqn:?; simpl;
    [| match goal with p : Settled DeleteReply |- _ =>
         destruct p as [[|[]]|?]; simpl
       end] ].

Ltac emitted_cases s e :=
  unfold emitted; event_cases s e;
  rewrite <- ?app_assoc, ?drop_app_length, ?drop_all; simpl.

Ltac elem_of_list H :=
  repeat (apply elem_of_cons in H as [H|H]; [try discriminate H|]);
  try (by apply elem_of_nil in H).

(** ** Frames: what the handlers leave alone *)

(** X11.  The screenshot list is replaced by a reset and by screenshots that
    arrive, and by nothing else: no handler edits it in place, and a
    delete, its success included, leaves it to the next arrival. *)
Theorem list_changes_only_on_reset_or_arrival (s : State) (e : Event) :
  changesList e = false →
  extraScreenshots (step s e) = extraScreenshots s.
Proof. intros He. event_cases s e; done. Qed.

Lemma list_changes_only_on_reset_or_arrival_witness :
  extraScreenshots (step twoScreenshots (DeleteSettles (Fulfilled (Response true))))
  = extraScreenshots twoScreenshots
  ∧ extraScreenshots
      (step (step twoScreenshots ScreenshotTaken)
         (ScreenshotsSettle (Rejected (Error (lit "offline"))) (λ _, 0%Z)))
    = extraScreenshots twoScreenshots.
Proof.
  split.
  - apply (list_changes_only_on_reset_or_arrival twoScreenshots). reflexivity.
  - rewrite (list_changes_only_on_reset_or_arrival (step twoScreenshots ScreenshotTaken))
      by reflexivity.
    apply (list_changes_only_on_reset_or_arrival twoScreenshots). reflexivity.
Defined.

(** X12.  Cached data is written by problem-extracted, solution-success and
    debug-success and removed by reset; every other task, solution-start
    included, leaves the data under every key as it was. *)
Theorem data_changes_only_on_four_events (s : State) (e : Event) (k : list string) :
  changesData e = false →
  QueryClient.getQueryData k (queryClient (step s e))
  = QueryClient.getQueryData k (queryClient s).
Proof.
  intros He. event_cases s e; try done.
  apply getQueryData_invalidateQueries.
Qed.

Lemma data_changes_only_on_four_events_witness :
  QueryClient.getQueryData ["solution"%string]
    (queryClient (run [SolutionSuccess (Some reverseSolution); SolutionStart]
                    (initialState ∅ solutions)))
  = Some (SolutionData reverseSolution).
Proof.
  change (run [SolutionSuccess (Some reverseSolution); SolutionStart]
            (initialState ∅ solutions))
    with (step (step (initialState ∅ solutions) (SolutionSuccess (Some reverseSolution)))
            SolutionStart).
  rewrite data_changes_only_on_four_events by reflexivity.
  vm_compute. reflexivity.
Defined.

Lemma matchesKey_false key k : ¬ key `prefix_of` k → QueryClient.matchesKey key k = false.
Proof. intros H. unfold QueryClient.matchesKey. by rewrite bool_decide_eq_false. Qed.

(** X13.  The component touches the cache under [problem_statement], under
    [solution] and [new_solution], and under keys that extend the last
    two (which a reset removes with them); the data under any other key
    survives every task. *)
Theorem cache_footprint (s : State) (e : Event) (k : list string) :
  k ≠ ["problem_statement"%string] →
  ¬ ["solution"%string] `prefix_of` k →
  ¬ ["new_solution"%string] `prefix_of` k →
  QueryClient.getQueryData k (queryClient (step s e))
  = QueryClient.getQueryData k (queryClient s).
Proof.
  intros Hp Hs Hn.
  assert (k ≠ ["solution"%string]) by (intros ->; by apply Hs).
  assert (k ≠ ["new_solution"%string]) by (intros ->; by apply Hn).
  event_cases s e; try done.
  - rewrite !getQueryData_removeQueries. by rewrite !matchesKey_false.
  - apply getQueryData_invalidateQueries.
  - rewrite getQueryData_setQueryData. destruct data; simpl; [|done].
    by case_decide.
  - rewrite getQueryData_setQueryData. simpl. by case_decide.
  - rewrite getQueryData_setQueryData. destruct data; simpl; [|done].
    by case_decide.
Qed.

Lemma cache_footprint_witness :
  QueryClient.getQueryData ["settings"%string; "language"%string]
    (queryClient
       (step (initialState
                {[ ["settings"%string; "language"%string] :=
                     {| state_data := ProblemData reverseProblem;
                        isInvalidated := false |} ]}
                solutions)
          ResetView))
  = Some (ProblemData reverseProblem).
Proof.
  rewrite cache_footprint.
  - vm_compute. reflexivity.
  - discriminate.
  - intros [k Hk]. discriminate Hk.
  - intros [k Hk]. discriminate Hk.
Defined.

(** ** What the component never does *)

(** X15.  The only view the component ever asks its parent for is [queue], and
    only in the task of a solution-error event that finds no [solution]
    entry. *)
Theorem setView_only_queue_on_error (s : State) (e : Event) (v : View) :
  SetView v ∈ emitted s e →
  v = queue
  ∧ (∃ msg, e = SolutionError msg)
  ∧ cached "solution" s = false.
Proof.
  unfold cached. emitted_cases s e; intros H; elem_of_list H.
  injection H as ->. split; [done|]. split; [by eexists | done].
Qed.

Lemma setView_only_queue_on_error_witness :
  SetView queue ∈ emitted (initialState ∅ solutions) (SolutionError (lit "timeout"))
  ∧ cached "solution" (initialState ∅ solutions) = false.
Proof.
  assert (H : SetView queue
              ∈ emitted (initialState ∅ solutions) (SolutionError (lit "timeout"))).
  { vm_compute. apply list_elem_of_further, list_elem_of_here. }
  split; [exact H|].
  exact (proj2 (proj2 (setView_only_queue_on_error _ _ _ H))).
Defined.

(** X16.  Toasts come from solution-error, debug-error, processing-no-screenshots
    and a failed delete.  No other task shows one: in particular a
    failed screenshot request is only logged. *)
Theorem toast_only_from_five_events (s : State) (e : Event) :
  mayToast e = false →
  Forall (λ o, isToast o = false) (emitted s e).
Proof.
  intros He. emitted_cases s e; try done; repeat constructor.
Qed.

Lemma toast_only_from_five_events_witness :
  Forall (λ o, isToast o = false)
    (emitted (step (initialState ∅ solutions) ScreenshotTaken)
       (ScreenshotsSettle (Rejected (Error (lit "offline"))) (λ _, 0%Z)))
  ∧ emitted (step (initialState ∅ solutions) ScreenshotTaken)
      (ScreenshotsSettle (Rejected (Error (lit "offline"))) (λ _, 0%Z))
    = [ConsoleError (lit "Error loading extra screenshots:")
         (LogExn (Error (lit "offline")))].
Proof.
  split.
  - apply toast_only_from_five_events. reflexivity.
  - vm_compute. reflexivity.
Defined.

(** ** Screenshots that arrive *)

Lemma array_map_toScreenshot_null now items :
  None ∈ items →
  ∀ i, array_map (toScreenshot now) i items = Throw TypeError.
Proof.
  induction items as [|[r|] items IH]; intros Hin i.
  - by apply elem_of_nil in Hin.
  - apply elem_of_cons in Hin as [Hin|Hin]; [done|].
    simpl. by rewrite IH.
  - done.
Qed.

(** X8.  A screenshot request that fails, by a rejected promise or by an
    element of the answer that has no properties, changes nothing but
    the log: the list is not updated in part, nothing is shown, and no
    exception leaves the handler. *)
Theorem onScreenshotTaken_failure (s : State) (now : nat → Z) :
  (∀ e,
     onScreenshotTaken_resume (Rejected e) now s
     = (Normal tt,
        emit (ConsoleError (lit "Error loading extra screenshots:") (LogExn e)) s))
  ∧ (∀ items,
       None ∈ items →
       onScreenshotTaken_resume (Fulfilled (IsArray items)) now s
       = (Normal tt,
          emit (ConsoleError (lit "Error loading extra screenshots:")
                  (LogExn TypeError)) s)).
Proof.
  split; [done|]. intros items Hin. handler. simpl.
  by rewrite array_map_toScreenshot_null.
Qed.

Lemma onScreenshotTaken_failure_witness :
  extraScreenshots
    (exec (onScreenshotTaken_resume
             (Fulfilled (IsArray [Some (sampleRaw "c.png"); None]))
             (λ _, 0%Z))
       twoScreenshots)
  = extraScreenshots twoScreenshots.
Proof.
  unfold exec.
  rewrite (proj2 (onScreenshotTaken_failure twoScreenshots (λ _, 0%Z))
             [Some (sampleRaw "c.png"); None]).
  - reflexivity.
  - apply list_elem_of_further, list_elem_of_here.
Defined.

(** X9.  An answer that is not an array empties the list; an array of at most
    100 elements with properties becomes the list as it is, in order,
    each entry identified by its path. *)
Theorem onScreenshotTaken_answer (s : State) (now : nat → Z) :
  extraScreenshots (exec (onScreenshotTaken_resume (Fulfilled NotArray) now) s) = []
  ∧ (∀ raws,
       (length raws ≤ 100)%nat →
       extraScreenshots
         (exec (onScreenshotTaken_resume (Fulfilled (IsArray (Some <$> raws))) now) s)
       = imap (screenshotOf now) raws
       ∧ id <$> imap (screenshotOf now) raws = raw_path <$> raws
       ∧ path <$> imap (screenshotOf now) raws = raw_path <$> raws).
Proof.
  split; [done|]. intros raws Hlen. split; [|split].
  - rewrite onScreenshotTaken_resume_list. simpl.
    rewrite array_map_toScreenshot. apply slice_MAX_short.
    by rewrite length_imap.
  - rewrite fmap_imap, <- imap_const. by apply imap_ext.
  - rewrite fmap_imap, <- imap_const. by apply imap_ext.
Qed.

Lemma onScreenshotTaken_answer_witness :
  path <$> extraScreenshots
    (exec (onScreenshotTaken_resume
             (Fulfilled (IsArray (Some <$> [sampleRaw "c.png"])))
             (λ _, 0%Z))
       twoScreenshots)
  = [lit "c.png"].
Proof.
  rewrite (proj1 (proj2 (onScreenshotTaken_answer twoScreenshots (λ _, 0%Z))
                    [sampleRaw "c.png"] ltac:(simpl; lia))).
  reflexivity.
Defined.

Lemma array_map_id_path now items :
  ∀ i l, array_map (toScreenshot now) i items = Normal l →
         Forall (λ sh, id sh = path sh) l.
Proof.
  induction items as [|[r|] items IH]; intros i l H; simpl in H.
  - injection H as <-. constructor.
  - destruct (array_map (toScreenshot now) (S i) items) as [l'|] eqn:E; [|done].
    injection H as <-. constructor; [done|]. by eapply IH.
  - done.
Qed.

Lemma step_id_path s e :
  Forall (λ sh, id sh = path sh) (extraScreenshots s) →
  Forall (λ sh, id sh = path sh) (extraScreenshots (step s e)).
Proof.
  intros H. event_cases s e; try done.
  unfold slice. apply Forall_drop. by eapply array_map_id_path.
Qed.

(** X10.  Whatever events were handled, every entry of the screenshot list is
    identified by its own path. *)
Theorem screenshots_id_is_path (es : list Event) (c : gmap (list string) Query) (v : View) :
  Forall (λ sh, id sh = path sh) (extraScreenshots (run es (initialState c v))).
Proof.
  assert (Hgen : ∀ s, Forall (λ sh, id sh = path sh) (extraScreenshots s) →
                      Forall (λ sh, id sh = path sh) (extraScreenshots (run es s))).
  { induction es as [|e es IH]; intros s H; [done|].
    simpl. apply IH. by apply step_id_path. }
  apply Hgen. constructor.
Qed.

(** ** solution-start *)

(** X17.  A solution-start event marks the [solution] query as invalidated and
    changes nothing that is displayed: the data under every key, and with
    it the rendered tree, are as before; the next solution-success
    stores its payload as a query that is not invalidated. *)
Theorem onSolutionStart_keeps_view (s : State) :
  render (step s SolutionStart) = render s
  ∧ (∀ k, QueryClient.getQueryData k (queryClient (step s SolutionStart))
          = QueryClient.getQueryData k (queryClient s))
  ∧ queryClient (step s SolutionStart) !! ["solution"%string]
    = (λ q, {| state_data := state_data q; isInvalidated := true |})
        <$> queryClient s !! ["solution"%string]
  ∧ ∀ d, queryClient (run [SolutionStart; SolutionSuccess (Some d)] s)
           !! ["solution"%string]
         = Some {| state_data := SolutionData d; isInvalidated := false |}.
Proof.
  split; [|split; [|split]].
  - unfold render. handler. simpl. by rewrite !getQueryData_invalidateQueries.
  - intros k. handler. simpl. apply getQueryData_invalidateQueries.
  - handler. simpl. unfold QueryClient.invalidateQueries.
    rewrite map_lookup_imap.
    by destruct (queryClient s !! ["solution"%string]).
  - intros d. unfold run. simpl. handler. simpl.
    unfold QueryClient.setQueryData. apply lookup_insert_eq.
Qed.

(** ** The base layout *)

Ltac break_ifs :=
  repeat match goal with
  | |- context [if ?b then _ else _] => destruct b eqn:?
  end.

(** X22.  In the base layout the command bar is there exactly once; the
    Problem Statement block is there exactly when no [solution] entry is
    cached, and the screenshot queue exactly when one is; a Thoughts
    block is never beside the Problem Statement block. *)
Theorem base_layout_blocks (s : State) :
  match render s with
  | Debug isProcessing => isProcessing = debugProcessing s
  | BaseLayout children =>
      length (filter (λ b, isSolutionCommands b = true) children) = 1%nat
      ∧ existsb isProblemStatementSection children = negb (cached "solution" s)
      ∧ existsb isScreenshotQueue children = cached "solution" s
      ∧ existsb isThoughtsSection children && existsb isProblemStatementSection children
        = false
  end.
Proof.
  unfold render, cached.
  destruct (negb (isResetting s) && truthy _); [done|].
  destruct (QueryClient.getQueryData ["solution"%string] (queryClient s))
    as [[p|sol]|]; simpl; break_ifs; done.
Qed.

Lemma formatComplexity_NA_iff (c : option jsstring) :
  formatComplexity c = lit "N/A" ↔ c = None ∨ ∃ x, c = Some x ∧ blank x.
Proof.
  split.
  - destruct c as [x|]; [|by left]. intros H. right. exists x. split; [done|].
    apply trim_nil. destruct (trim x) as [|ch t] eqn:Ht; [done|]. exfalso.
    assert (Hnb : ¬ blank x) by (rewrite <- trim_nil, Ht; done).
    rewrite formatComplexity_not_blank in H by done.
    destruct (RegExp.test bigORegex x) eqn:Htest.
    + subst x. vm_compute in Htest. discriminate Htest.
    + vm_compute in H. discriminate H.
  - intros [-> | (x & -> & Hb)]; [done|]. by apply formatComplexity_blank.
Qed.

Lemma ComplexitySection_inj t sp t' sp' :
  ComplexitySection t sp = ComplexitySection t' sp' → t = t' ∧ sp = sp'.
Proof. by intros [= -> ->]. Qed.

(** X23.  The Complexity block is rendered only for a cached solution whose
    two complexity strings are not empty, and it shows what
    [formatComplexity] makes of them; it shows [N/A] for the time
    exactly when that string is blank. *)
Theorem complexity_block_source (s : State) (children : list Block) (t sp : jsstring) :
  render s = BaseLayout children →
  ComplexitySection t sp ∈ children →
  ∃ sol,
    QueryClient.getQueryData ["solution"%string] (queryClient s)
    = Some (SolutionData sol)
    ∧ time_complexity sol ≠ [] ∧ space_complexity sol ≠ []
    ∧ t = formatComplexity (Some (time_complexity sol))
    ∧ sp = formatComplexity (Some (space_complexity sol))
    ∧ (t = lit "N/A" ↔ blank (time_complexity sol)).
Proof.
  unfold render.
  destruct (negb (isResetting s) && truthy _); [done|].
  intros Hr Hin. injection Hr as <-.
  destruct (QueryClient.getQueryData ["solution"%string] (queryClient s))
    as [[p|sol]|]; cbn -[formatComplexity] in Hin.
  - elem_of_list Hin.
  - exists sol.
    destruct (time_complexity sol) as [|c1 tc] eqn:Htc;
      destruct (space_complexity sol) as [|c2 sc] eqn:Hsc;
      destruct (code sol); cbn -[formatComplexity] in Hin; elem_of_list Hin.
    all: apply ComplexitySection_inj in Hin as [-> ->].
    all: split; [done|]; split; [done|]; split; [done|]; split; [done|];
         split; [done|].
    all: rewrite formatComplexity_NA_iff; split;
         [ by intros [?|(x & [= <-] & ?)] | intros ?; right; by eexists ].
  - elem_of_list Hin.
Qed.

Lemma complexity_block_source_witness :
  ∃ sol,
    QueryClient.getQueryData ["solution"%string]
      (queryClient (run [SolutionSuccess (Some reverseSolution)] (initialState ∅ solutions)))
    = Some (SolutionData sol)
    ∧ lit "O(n)" = formatComplexity (Some (time_complexity sol)).
Proof.
  destruct (complexity_block_source
              (run [SolutionSuccess (Some reverseSolution)] (initialState ∅ solutions))
              [ScreenshotQueue false []; SolutionCommands true [];
               ThoughtsSection [lit "iterate"; lit "swap"];
               SolutionSection (lit "func rev(s string) string {...}");
               ComplexitySection (lit "O(n)") (lit "O(1)")]
              (lit "O(n)") (lit "O(1)"))
    as (sol & H1 & _ & _ & H2 & _).
  - vm_compute. reflexivity.
  - do 4 apply list_elem_of_further. apply list_elem_of_here.
  - exists sol. split; [exact H1 | exact H2].
Defined.

Lemma onResetView_timers s :
  timers (exec onResetView s)
  = timers s ++ [{| timer_callback := ClearIsResetting; timer_delay := 0 |}]
  ∧ isResetting (exec onResetView s) = true.
Proof. done. Qed.

(** ** After a reset *)

(** X19.  What is rendered right after a reset, and after the deferred task as
    well, is the command bar in its processing state over an empty list
    and the Problem Statement block, which shows the cached statement if
    there is one: the reset leaves the [problem_statement] entry. *)
Theorem render_after_reset (s : State) :
  let ps := QueryClient.getQueryData ["problem_statement"%string] (queryClient s) in
  let base := BaseLayout [SolutionCommands true [];
                          ProblemStatementSection (get_problem_statement ps)
                            (negb (truthy ps))] in
  render (step s ResetView) = base
  ∧ render (run [ResetView; TimerFires] s) = base.
Proof.
  cbv zeta.
  assert (Hps : QueryClient.getQueryData ["problem_statement"%string]
                  (queryClient (exec onResetView s))
                = QueryClient.getQueryData ["problem_statement"%string] (queryClient s)).
  { handler. simpl. by rewrite !getQueryData_removeQueries. }
  destruct (onResetView_cleared s) as [Hsol Hnew].
  split.
  - change (step s ResetView) with (exec onResetView s).
    unfold render. rewrite Hsol, Hnew, Hps. simpl.
    by rewrite orb_true_r.
  - change (run [ResetView; TimerFires] s)
      with (step (exec onResetView s) TimerFires).
    assert (Hq : queryClient (step (exec onResetView s) TimerFires)
                 = queryClient (exec onResetView s)).
    { unfold step at 1. unfold exec at 1. unfold handle, runTimer.
      destruct (timers (exec onResetView s)) as [|[[] ?] ?]; done. }
    assert (Hl : extraScreenshots (step (exec onResetView s) TimerFires) = []).
    { unfold step at 1. unfold exec at 1. unfold handle, runTimer.
      destruct (timers (exec onResetView s)) as [|[[] ?] ?]; done. }
    unfold render. rewrite Hq, Hl, Hsol, Hnew, Hps. simpl.
    by rewrite andb_false_r, orb_true_r.
Qed.

Lemma timers_after_resets n :
  ∀ s, length (timers (run (replicate n ResetView) s)) = (length (timers s) + n)%nat
       ∧ (n ≠ 0%nat → isResetting (run (replicate n ResetView) s) = true).
Proof.
  induction n as [|n IH]; intros s.
  - simpl. split; [lia | done].
  - change (replicate (S n) ResetView) with ([ResetView] ++ replicate n ResetView).
    rewrite run_app. destruct (IH (run [ResetView] s)) as [IH1 IH2].
    split.
    + rewrite IH1. change (run [ResetView] s) with (exec onResetView s).
      destruct (onResetView_timers s) as [-> _]. rewrite length_app. simpl. lia.
    + intros _. destruct n as [|n]; [done|]. by apply IH2.
Qed.

(** X20.  Resets do not nest: after any number of reset events, the first
    deferred task that runs lowers [isResetting], while the tasks of the
    later resets are still waiting. *)
Theorem first_deferred_task_lowers_flag (s : State) (n : nat) :
  isResetting (run (replicate (S n) ResetView) s) = true
  ∧ isResetting (run (replicate (S n) ResetView ++ [TimerFires]) s) = false
  ∧ length (timers (run (replicate (S n) ResetView ++ [TimerFires]) s))
    = (length (timers s) + n)%nat.
Proof.
  destruct (timers_after_resets (S n) s) as [Hlen Hflag].
  split; [by apply Hflag|].
  rewrite run_app.
  remember (run (replicate (S n) ResetView) s) as s1 eqn:Hs1. clear Hs1 Hflag.
  change (run [TimerFires] s1) with (step s1 TimerFires).
  destruct (timers s1) as [|[[] d] ts] eqn:Ht.
  { simpl in Hlen. lia. }
  simpl in Hlen. handler. rewrite Ht. simpl. split; [done | lia].
Qed.

(** ** More on [formatComplexity] *)

(** X6.  [formatComplexity] answers [N/A] exactly for [null] and for blank
    strings, and it never answers with an empty string. *)
Theorem formatComplexity_NA_exactly (c : option jsstring) :
  (formatComplexity c = lit "N/A" ↔ c = None ∨ ∃ x, c = Some x ∧ blank x)
  ∧ formatComplexity c ≠ [].
Proof.
  split; [apply formatComplexity_NA_iff|].
  destruct c as [x|]; [|done]. unfold formatComplexity.
  destruct x as [|ch x]; [done|].
  destruct (jsstring_is_empty _ || jsstring_is_empty _); [done|].
  by destruct (RegExp.test bigORegex (ch :: x)).
Qed.

Lemma split_at_close (c : jsstring) :
  ∃ body post, c ++ [chr ")"] = body ++ chr ")" :: post ∧ chr ")" ∉ body.
Proof.
  induction c as [|ch c (body & post & Heq & Hnin)].
  - exists [], []. split; [done|]. apply not_elem_of_nil.
  - destruct (decide (ch = chr ")")) as [->|Hne].
    + exists [], (c ++ [chr ")"]). split; [done|]. apply not_elem_of_nil.
    + exists (ch :: body), post. split.
      * simpl. by rewrite Heq.
      * rewrite not_elem_of_cons. split; [congruence | done].
Qed.

(** X7.  Formatting twice is formatting once, for a string that is not blank
    and does not begin with a closing parenthesis: what
    [formatComplexity] returns then holds a Big-O pattern and is
    returned unchanged when it is formatted again. *)
Theorem formatComplexity_idempotent (c : jsstring) :
  ¬ blank c →
  head c ≠ Some (chr ")") →
  containsBigO (formatComplexity (Some c))
  ∧ formatComplexity (Some (formatComplexity (Some c))) = formatComplexity (Some c).
Proof.
  intros Hnb Hhead.
  assert (Hbig : containsBigO (formatComplexity (Some c))).
  { rewrite formatComplexity_not_blank by done.
    destruct (RegExp.test bigORegex c) eqn:Ht; [by apply test_bigORegex|].
    destruct (split_at_close c) as (body & post & Heq & Hnin).
    exists [], (chr "O"), body, post. split; [|split; [by left|split; [|done]]].
    - change (lit "O(" ++ c ++ lit ")") with (chr "O" :: chr "(" :: (c ++ [chr ")"])).
      by rewrite Heq.
    - intros ->. destruct c as [|ch c]; [by apply Hnb; constructor|].
      simpl in Heq. injection Heq as -> _. by apply Hhead. }
  split; [done|].
  rewrite (formatComplexity_not_blank (formatComplexity (Some c)))
    by by apply containsBigO_not_blank.
  apply test_bigORegex in Hbig. by rewrite Hbig.
Qed.

Lemma formatComplexity_idempotent_witness :
  formatComplexity (Some (formatComplexity (Some (lit "n log n"))))
  = formatComplexity (Some (lit "n log n")).
Proof.
  apply (proj2 (formatComplexity_idempotent (lit "n log n")
                  ltac:(intros H; inversion H as [|? ? Hws _]; vm_compute in Hws;
                        discriminate Hws)
                  ltac:(vm_compute; discriminate))).
Defined.

(** Without the two conditions formatting twice wraps twice. *)
Example formatComplexity_not_idempotent :
  formatComplexity (Some (formatComplexity (Some (lit ")")))) = lit "O(O()))"
  ∧ formatComplexity (Some (formatComplexity (Some (lit " ")))) = lit "O(N/A)".
Proof. vm_compute. done. Qed.

(** ** problem-extracted *)

(** X18.  While no solution is cached and the base layout is shown, a
    problem-extracted event with a payload makes the Problem Statement
    block show the payload's text, no longer loading, and leaves the two
    solution entries alone. *)
Theorem onProblemExtracted_shows_statement (s : State) (d : ProblemStatementData) :
  cached "solution" s = false →
  isDebug (render s) = false →
  render (step s (ProblemExtracted (Some d)))
  = BaseLayout [SolutionCommands true (extraScreenshots s);
                ProblemStatementSection (Some (problem_statement d)) false]
  ∧ cached "solution" (step s (ProblemExtracted (Some d))) = false
  ∧ cached "new_solution" (step s (ProblemExtracted (Some d))) = cached "new_solution" s.
Proof.
  unfold cached. rewrite isDebug_render. intros Hsol Hdbg.
  destruct (QueryClient.getQueryData ["solution"%string] (queryClient s)) eqn:Es;
    [done|].
  unfold render. handler. simpl.
  rewrite !getQueryData_setQueryData. simpl. rewrite Es, Hdbg. done.
Qed.

Lemma onProblemExtracted_shows_statement_witness :
  render (step (initialState ∅ solutions) (ProblemExtracted (Some reverseProblem)))
  = BaseLayout [SolutionCommands true [];
                ProblemStatementSection (Some (lit "Reverse a string")) false].
Proof.
  apply onProblemExtracted_shows_statement; vm_compute; reflexivity.
Defined.

(** ** Unmounting *)

Lemma filter_ext_elem {A} (P Q : A → Prop)
    `{!∀ x, Decision (P x), !∀ x, Decision (Q x)} (l : list A) :
  (∀ x, x ∈ l → (P x ↔ Q x)) → filter P l = filter Q l.
Proof.
  induction l as [|a l IH]; intros Hext; [done|].
  assert (Ha : P a ↔ Q a) by (apply Hext; left).
  assert (Hl : filter P l = filter Q l).
  { apply IH. intros x Hx. apply Hext. by right. }
  rewrite !filter_cons, Hl. destruct (decide (P a)), (decide (Q a)); tauto.
Qed.

Lemma filter_all {A} (P : A → Prop) `{!∀ x, Decision (P x)} (l : list A) :
  Forall P l → filter P l = l.
Proof.
  induction 1 as [|a l Ha _ IH]; [done|].
  by rewrite filter_cons_True, IH.
Qed.

Lemma filter_none {A} (l : list A) : filter (λ _, False) l = [].
Proof.
  induction l as [|a l IH]; [done|].
  rewrite filter_cons_False by tauto. exact IH.
Qed.

Lemma cleanup_listeners fs :
  ∀ s, listeners (exec (useEffect_cleanup fs) s)
       = filter (λ l, Some (listener_id l) ∉ fs) (listeners s).
Proof.
  unfold useEffect_cleanup. induction fs as [|[n|] fs IH]; intros s.
  - symmetry. apply filter_all, Forall_forall. intros l _. apply not_elem_of_nil.
  - etransitivity; [exact (IH (exec (call_unregister n) s))|].
    simpl. rewrite list_filter_filter. apply list_filter_iff.
    intros l. rewrite not_elem_of_cons. split.
    + intros [? ?]. split; [congruence | done].
    + intros [? ?]. split; [done | congruence].
  - etransitivity; [exact (IH s)|].
    apply list_filter_iff. intros l. rewrite not_elem_of_cons. split.
    + intros ?. by split.
    + by intros [_ ?].
Qed.

Lemma unregistered_new_listeners (returnsUnregister : EventName → bool)
    (regs : list (EventName * Callback)) (n : nat) :
  let new := imap (λ i r, {| listener_id := (i + n)%nat; listener_event := r.1;
                             listener_callback := r.2 |}) regs in
  let fs := imap (λ i r, if returnsUnregister r.1 then Some (i + n)%nat else None)
              regs in
  filter (λ l, Some (listener_id l) ∉ fs) new
  = filter (λ l, returnsUnregister (listener_event l) = false) new.
Proof.
  cbv zeta. apply filter_ext_elem. intros l Hl.
  apply elem_of_lookup_imap in Hl as (j & r & -> & Hj). simpl.
  rewrite elem_of_lookup_imap. split.
  - intros Hnot. destruct (returnsUnregister r.1) eqn:Hr; [|done].
    destruct Hnot. exists j, r. by rewrite Hr.
  - intros Hr (i & r' & Heq & Hi).
    destruct (returnsUnregister r'.1) eqn:Hr'; [|done].
    injection Heq as Heq. assert (i = j) by lia. subst i.
    rewrite Hj in Hi. injection Hi as <-. congruence.
Qed.

(** X21.  Unmounting right after mounting leaves with the bridge the listeners
    it had before and, of the ten handlers, those for which the bridge
    returned no unregister function; when it returned one for every
    event, the bridge holds exactly what it held before. *)
Theorem mount_unmount_listeners (returnsUnregister : EventName → bool) (s : State) :
  listenersFresh s →
  ∃ fs,
    (useEffect_setup returnsUnregister s).1 = Normal fs
    ∧ listeners (exec (useEffect_cleanup fs) (useEffect_setup returnsUnregister s).2)
      = listeners s
        ++ filter (λ l, returnsUnregister (listener_event l) = false)
             (imap (λ i r, {| listener_id := (i + nextListener s)%nat;
                              listener_event := r.1; listener_callback := r.2 |})
                registrations)
    ∧ ((∀ ev, returnsUnregister ev = true) →
       listeners (exec (useEffect_cleanup fs) (useEffect_setup returnsUnregister s).2)
       = listeners s).
Proof.
  intros Hfresh.
  pose (fs := imap (λ i (r : EventName * Callback),
                      if returnsUnregister r.1 then Some (i + nextListener s)%nat
                      else None) registrations).
  assert (Hfs : (useEffect_setup returnsUnregister s).1 = Normal fs) by done.
  assert (Hls : listeners (useEffect_setup returnsUnregister s).2
                = listeners s
                  ++ imap (λ i r, {| listener_id := (i + nextListener s)%nat;
                                     listener_event := r.1;
                                     listener_callback := r.2 |}) registrations).
  { unfold useEffect_setup. handler. cbv [electronAPI_on]. simpl.
    by rewrite <- !app_assoc. }
  assert (Hmain : listeners (exec (useEffect_cleanup fs)
                               (useEffect_setup returnsUnregister s).2)
      = listeners s
        ++ filter (λ l, returnsUnregister (listener_event l) = false)
             (imap (λ i r, {| listener_id := (i + nextListener s)%nat;
                              listener_event := r.1; listener_callback := r.2 |})
                registrations)).
  { rewrite cleanup_listeners, Hls, filter_app. f_equal.
    - apply filter_all. unfold listenersFresh in Hfresh.
      eapply Forall_impl; [exact Hfresh|]. intros l Hlt.
      unfold fs. rewrite elem_of_lookup_imap. intros (i & r & Heq & _).
      destruct (returnsUnregister r.1); [|done]. injection Heq as Heq.
      simpl in Hlt. lia.
    - apply unregistered_new_listeners. }
  exists fs. split; [done|]. split; [done|].
  intros Hall. rewrite Hmain.
  rewrite (filter_ext_elem _ (λ _, False)).
  - by rewrite filter_none, app_nil_r.
  - intros l _. rewrite Hall. done.
Qed.

Lemma mount_unmount_listeners_witness :
  ∃ fs,
    (useEffect_setup (λ _, true) (initialState ∅ solutions)).1 = Normal fs
    ∧ listeners (exec (useEffect_cleanup fs)
                   (useEffect_setup (λ _, true) (initialState ∅ solutions)).2)
      = [].
Proof.
  destruct (mount_unmount_listeners (λ _, true) (initialState ∅ solutions))
    as (fs & H1 & _ & H3).
  - constructor.
  - exists fs. split; [exact H1|]. by apply H3.
Defined.

(** * [debounce] *)

Section DebounceProperties.

Context {A : Type}.
Variable wait : Z.

Lemma debounce_run_snoc (es : list (Debounce.Event A)) e w :
  Debounce.run wait (es ++ [e]) w = Debounce.step wait (Debounce.run wait es w) e.
Proof. unfold Debounce.run. by rewrite foldl_app. Qed.

Lemma debounce_invocations_snoc (es : list (Debounce.Event A)) e :
  Debounce.invocations (es ++ [e])
  = Debounce.invocations es
    ++ match e with Debounce.Invoke args => [args] | _ => [] end.
Proof.
  unfold Debounce.invocations. rewrite omap_app. by destruct e.
Qed.

(** After a call exactly one timer waits: the one just set. *)
Lemma debounce_pending_after_call (w : Debounce.Window A) args :
  Debounce.single w →
  Debounce.pending (Debounce.debounced wait args w)
  = [(Debounce.nextHandle w, args, Debounce.clock w + Z.max wait 0)%Z]
  ∧ Debounce.timeoutId (Debounce.debounced wait args w)
    = Some (Debounce.nextHandle w)
  ∧ Debounce.calls (Debounce.debounced wait args w) = Debounce.calls w.
Proof.
  intros [Hp | (h & a & d & Hp & Hid)]; simpl; rewrite Hp.
  - done.
  - rewrite Hid, filter_cons_False by (simpl; tauto). done.
Qed.

Lemma debounce_invariant (es : list (Debounce.Event A)) t0 h0 :
  let w := Debounce.run wait es (Debounce.initial t0 h0) in
  (Debounce.pending w = []
   ∧ Debounce.calls w `sublist_of` Debounce.invocations es)
  ∨ (∃ h a d before,
       Debounce.pending w = [(h, a, d)]
       ∧ Debounce.timeoutId w = Some h
       ∧ Debounce.invocations es = before ++ [a]
       ∧ Debounce.calls w `sublist_of` before).
Proof.
  induction es as [|e es IH] using rev_ind; cbv zeta.
  { left. split; [done|]. constructor. }
  rewrite debounce_run_snoc, debounce_invocations_snoc.
  remember (Debounce.run wait es (Debounce.initial t0 h0)) as w eqn:Hw.
  clear Hw. cbv zeta in IH.
  assert (Hsingle : Debounce.single w).
  { destruct IH as [[Hp _] | (h & a & d & _ & Hp & Hid & _)];
      [by left | right; by exists h, a, d]. }
  destruct e as [args|ms|]; simpl Debounce.step.
  - destruct (debounce_pending_after_call w args Hsingle) as (Hp' & Hid' & Hc').
    right. eexists _, args, _, (Debounce.invocations es).
    split; [exact Hp'|]. split; [exact Hid'|]. split; [done|].
    rewrite Hc'.
    destruct IH as [[_ Hsub] | (h & a & d & before & _ & _ & -> & Hsub)];
      [done | by apply sublist_inserts_r].
  - rewrite app_nil_r. exact IH.
  - rewrite app_nil_r.
    destruct IH as [[Hp Hsub] | (h & a & d & before & Hp & Hid & Heq & Hsub)].
    + left. simpl. rewrite Hp. simpl. by rewrite app_nil_r.
    + simpl. rewrite Hp, Heq.
      destruct (decide (d ≤ Debounce.clock w)%Z) as [Hdue|Hdue].
      * left. rewrite filter_cons_False by (simpl; tauto).
        rewrite filter_cons_True by done. simpl.
        split; [done|]. by apply sublist_app.
      * right. rewrite filter_cons_True by done.
        rewrite filter_cons_False by done. simpl. rewrite app_nil_r.
        by exists h, a, d, before.
Qed.

(** X1.  However the debounced function is used, at most one call of [func]
    is waiting at any time, and the calls of [func] made so far carry
    arguments of invocations, in the order of the invocations and each
    invocation's at most once. *)
Theorem debounce_calls_are_invocations (es : list (Debounce.Event A)) t0 h0 :
  let w := Debounce.run wait es (Debounce.initial t0 h0) in
  Debounce.single w
  ∧ (length (Debounce.pending w) ≤ 1)%nat
  ∧ Debounce.calls w `sublist_of` Debounce.invocations es.
Proof.
  cbv zeta.
  destruct (debounce_invariant es t0 h0)
    as [[Hp Hsub] | (h & a & d & before & Hp & Hid & Heq & Hsub)].
  - split; [by left|]. rewrite Hp. split; [simpl; lia | done].
  - split; [right; by exists h, a, d|]. rewrite Hp, Heq.
    split; [simpl; lia | by apply sublist_inserts_r].
Qed.


End DebounceProperties.


(** * [SolutionSection] *)

Lemma copy_run_snoc es e s :
  CopyButton.run (es ++ [e]) s = CopyButton.step (CopyButton.run es s) e.
Proof. unfold CopyButton.run. by rewrite foldl_app. Qed.

Lemma copy_step_revert_pending s e :
  (CopyButton.copied s = true → CopyButton.timers s ≠ []) →
  CopyButton.copied (CopyButton.step s e) = true →
  CopyButton.timers (CopyButton.step s e) ≠ [].
Proof.
  intros Hinv. destruct e as [[text|]|[[]|err]|]; simpl; try exact Hinv.
  - unfold CopyButton.settle. destruct (CopyButton.writing s); [exact Hinv|].
    simpl. intros _. by destruct (CopyButton.timers s).
  - unfold CopyButton.settle. destruct (CopyButton.writing s); exact Hinv.
  - unfold CopyButton.runTimer.
    destruct (CopyButton.timers s) eqn:E; simpl; rewrite ?E; [exact Hinv | done].
Qed.

Lemma copy_timers_clear n :
  ∀ s, length (CopyButton.timers s) = n →
       (CopyButton.copied s = true → CopyButton.timers s ≠ []) →
       CopyButton.copied (CopyButton.run (replicate n CopyButton.TimerFires) s)
       = false.
Proof.
  induction n as [|n IH]; intros s Hlen Hinv.
  - simpl. destruct (CopyButton.timers s); [|done].
    destruct (CopyButton.copied s); [by destruct Hinv | done].
  - simpl. destruct (CopyButton.timers s) as [|d ts] eqn:Ht; [done|].
    apply IH.
    + unfold CopyButton.runTimer. rewrite Ht. simpl. simpl in Hlen. lia.
    + unfold CopyButton.runTimer. rewrite Ht. done.
Qed.

(** X3.  The button never keeps saying [Copied!]: whenever [copied] is true a
    task that lowers it is waiting, every waiting task has a delay of
    2000 ms, and once the waiting tasks have run [copied] is false. *)
Theorem copied_always_reverts (es : list CopyButton.Event) :
  let s := CopyButton.run es CopyButton.initial in
  (CopyButton.copied s = true → CopyButton.timers s ≠ [])
  ∧ Forall (λ d, d = 2000%Z) (CopyButton.timers s)
  ∧ CopyButton.copied
      (CopyButton.run (replicate (length (CopyButton.timers s)) CopyButton.TimerFires) s)
    = false.
Proof.
  cbv zeta.
  assert (Hinv : CopyButton.copied (CopyButton.run es CopyButton.initial) = true →
                 CopyButton.timers (CopyButton.run es CopyButton.initial) ≠ []).
  { induction es as [|e es IH] using rev_ind; [done|].
    rewrite copy_run_snoc. by apply copy_step_revert_pending. }
  split; [exact Hinv|]. split; [|by apply copy_timers_clear].
  clear Hinv. induction es as [|e es IH] using rev_ind; [constructor|].
  rewrite copy_run_snoc.
  remember (CopyButton.run es CopyButton.initial) as s eqn:Hs. clear Hs.
  destruct e as [[text|]|[[]|err]|]; simpl; try exact IH.
  - unfold CopyButton.settle.
    destruct (CopyButton.writing s); [exact IH|]. simpl.
    apply Forall_app. split; [exact IH | by repeat constructor].
  - unfold CopyButton.settle. destruct (CopyButton.writing s); exact IH.
  - unfold CopyButton.runTimer.
    destruct (CopyButton.timers s) as [|d ts] eqn:E; simpl; rewrite ?E;
      [exact IH|].
    by inversion IH.
Qed.

(** X4.  [Copied!] is shown only after a string was handed to the clipboard
    and the write was fulfilled; content that is not a string is never
    written, and a rejected write changes neither the label nor the
    waiting tasks. *)
Theorem copied_only_after_write (es : list CopyButton.Event) :
  let s := CopyButton.run es CopyButton.initial in
  (CopyButton.copied s = true →
   CopyButton.WriteSettles (Fulfilled tt) ∈ es
   ∧ ∃ text, CopyButton.Click (CopyButton.StringContent text) ∈ es)
  ∧ CopyButton.step s (CopyButton.Click CopyButton.OtherContent) = s
  ∧ ∀ err,
      CopyButton.copied (CopyButton.step s (CopyButton.WriteSettles (Rejected err)))
      = CopyButton.copied s
      ∧ CopyButton.timers (CopyButton.step s (CopyButton.WriteSettles (Rejected err)))
        = CopyButton.timers s.
Proof.
  cbv zeta. split; [|split; [done|]].
  - assert (Hinv :
      (CopyButton.copied (CopyButton.run es CopyButton.initial) = true →
       CopyButton.WriteSettles (Fulfilled tt) ∈ es
       ∧ ∃ text, CopyButton.Click (CopyButton.StringContent text) ∈ es)
      ∧ (CopyButton.writing (CopyButton.run es CopyButton.initial) ≠ 0%nat →
         ∃ text, CopyButton.Click (CopyButton.StringContent text) ∈ es)).
    { induction es as [|e es [IH1 IH2]] using rev_ind; [done|].
      rewrite copy_run_snoc.
      assert (Hmono1 : CopyButton.WriteSettles (Fulfilled tt) ∈ es →
                       CopyButton.WriteSettles (Fulfilled tt) ∈ es ++ [e])
        by (intros ?; apply elem_of_app; by left).
      assert (Hmono2 : (∃ text, CopyButton.Click (CopyButton.StringContent text) ∈ es) →
                       ∃ text, CopyButton.Click (CopyButton.StringContent text) ∈ es ++ [e]).
      { intros [text ?]. exists text. apply elem_of_app. by left. }
      destruct e as [[text|]|[[]|err]|]; simpl.
      - split.
        + intros H. destruct (IH1 H) as [? ?]. split; [by apply Hmono1 | by apply Hmono2].
        + intros _. exists text. apply elem_of_app. right. left.
      - split.
        + intros H. destruct (IH1 H) as [? ?]. split; [by apply Hmono1 | by apply Hmono2].
        + intros H. by apply Hmono2, IH2.
      - unfold CopyButton.settle.
        destruct (CopyButton.writing (CopyButton.run es CopyButton.initial)) as [|n] eqn:Hw.
        + split.
          * intros H. destruct (IH1 H) as [? ?].
            split; [by apply Hmono1 | by apply Hmono2].
          * by rewrite Hw.
        + assert (Hclick : ∃ text, CopyButton.Click (CopyButton.StringContent text) ∈ es)
            by (by apply IH2).
          split.
          * intros _. split; [|by apply Hmono2].
            apply elem_of_app. right. left.
          * intros _. by apply Hmono2.
      - unfold CopyButton.settle.
        destruct (CopyButton.writing (CopyButton.run es CopyButton.initial)) as [|n] eqn:Hw.
        + split.
          * intros H. destruct (IH1 H) as [? ?].
            split; [by apply Hmono1 | by apply Hmono2].
          * by rewrite Hw.
        + assert (Hclick : ∃ text, CopyButton.Click (CopyButton.StringContent text) ∈ es)
            by (by apply IH2).
          simpl. split.
          * intros H. destruct (IH1 H) as [? ?].
            split; [by apply Hmono1 | by apply Hmono2].
          * intros _. by apply Hmono2.
      - unfold CopyButton.runTimer.
        destruct (CopyButton.timers (CopyButton.run es CopyButton.initial)); simpl.
        + split.
          * intros H. destruct (IH1 H) as [? ?].
            split; [by apply Hmono1 | by apply Hmono2].
          * intros H. by apply Hmono2, IH2.
        + split; [done|]. intros H. by apply Hmono2, IH2. }
    exact (proj1 Hinv).
  - intros err. simpl. unfold CopyButton.settle.
    by destruct (CopyButton.writing _).
Qed.

Lemma copied_only_after_write_witness :
  CopyButton.WriteSettles (Fulfilled tt)
  ∈ [CopyButton.Click (CopyButton.StringContent (lit "x = 1"));
     CopyButton.WriteSettles (Fulfilled tt)].
Proof.
  apply (proj1 (copied_only_after_write
                  [CopyButton.Click (CopyButton.StringContent (lit "x = 1"));
                   CopyButton.WriteSettles (Fulfilled tt)])).
  reflexivity.
Defined.

Lemma copied_always_reverts_witness :
  CopyButton.timers
    (CopyButton.run [CopyButton.Click (CopyButton.StringContent (lit "x = 1"));
                     CopyButton.WriteSettles (Fulfilled tt)]
       CopyButton.initial)
  ≠ [].
Proof.
  apply (proj1 (copied_always_reverts
                  [CopyButton.Click (CopyButton.StringContent (lit "x = 1"));
                   CopyButton.WriteSettles (Fulfilled tt)])).
  reflexivity.
Defined.

(** X5.  The highlighter is never asked for [golang]: that name becomes [go],
    every other name is passed as it is, and mapping twice is mapping
    once. *)
Theorem highlighterLanguage_never_golang (currentLanguage : jsstring) :
  CopyButton.highlighterLanguage currentLanguage ≠ lit "golang"
  ∧ CopyButton.highlighterLanguage (CopyButton.highlighterLanguage currentLanguage)
    = CopyButton.highlighterLanguage currentLanguage
  ∧ (currentLanguage ≠ lit "golang" →
     CopyButton.highlighterLanguage currentLanguage = currentLanguage)
  ∧ CopyButton.highlighterLanguage (lit "golang") = lit "go".
Proof.
  unfold CopyButton.highlighterLanguage.
  destruct (decide (currentLanguage = lit "golang")) as [->|Hne].
  - split; [done|]. split; [done|]. split; [done|]. done.
  - split; [done|]. split; [by rewrite decide_False|]. split; [done|]. done.
Qed.

Lemma highlighterLanguage_never_golang_witness :
  CopyButton.highlighterLanguage (lit "python") = lit "python".
Proof.
  apply (proj1 (proj2 (proj2 (highlighterLanguage_never_golang (lit "python"))))).
  discriminate.
Defined.

Lemma cleared_together_witness :
  cached "solution"
    (step (run [SolutionSuccess (Some reverseSolution); DebugSuccess (Some sampleSolution)]
             (initialState ∅ solutions))
       ResetView)
  = false
  ∧ cached "new_solution"
      (step (run [SolutionSuccess (Some reverseSolution); DebugSuccess (Some sampleSolution)]
               (initialState ∅ solutions))
         ResetView)
    = false.
Proof.
  apply cleared_together. left. split; vm_compute; reflexivity.
Defined.
